(** * Madhava-Leibniz pi search: a shallow embedding of [pi/madhava-leibniz.py]

    The file follows the Python source function by function.

    - Python [int] is [Z]; Python [float] is an IEEE 754 binary64 value,
      modelled by the Standard Library's [spec_float] at precision 53 and
      maximal exponent 1024 with round-to-nearest-even operations.
    - Python [str] is [string].
    - Methods of [PiSearch] are computations in a small state-and-exception
      monad over the record of instance attributes.
    - The endless [while True] loop of [find_pi] is run for a given number of
      passes of its body; a run stops only by an exception or by the
      interpreter being interrupted between two passes. *)

From Stdlib Require Import ZArith List String Ascii Bool Lia Sorted.
From Stdlib Require Import DecimalString SpecFloat.
Import ListNotations.

Open Scope bool_scope.
Open Scope Z_scope.

(** ** The parts of the Python runtime the program relies on *)

Module Py.

(** Exceptions the modelled code can raise. *)
Inductive exn :=
| AssertionError
| AttributeError
| OverflowError
| ZeroDivisionError.

Inductive result (A : Type) :=
| Ok (a : A)
| Raise (e : exn).
Arguments Ok {A} a.
Arguments Raise {A} e.

(** *** Floats *)

Definition float := spec_float.
Definition prec : Z := 53.
Definition emax : Z := 1024.

Definition fzero : float := S754_zero false.
Definition fadd : float -> float -> float := SFadd prec emax.
Definition fmul : float -> float -> float := SFmul prec emax.

(** The nearest float of an integer, ties to even. *)
Definition round_int (z : Z) : float := binary_normalize prec emax z 0 false.

(** Integers at or above [2^1024 - 2^970] in magnitude round to an
    infinity; the conversion [int -> float] raises [OverflowError] there. *)
Definition float_max_int : Z := 2 ^ 1024 - 2 ^ 970.

Definition float_of_int (z : Z) : result float :=
  if float_max_int <=? Z.abs z then Raise OverflowError
  else Ok (round_int z).

(** [x / d] for a float [x] and an int [d]: the int is converted first,
    and a zero divisor raises. *)
Definition truediv_int (x : float) (d : Z) : result float :=
  match float_of_int d with
  | Raise e => Raise e
  | Ok y => if d =? 0 then Raise ZeroDivisionError
            else Ok (SFdiv prec emax x y)
  end.

(** The float a decimal literal [digits / 10^scale] denotes: literals are
    read with correct rounding, which for two exactly representable
    integers is what one float division gives. *)
Definition float_of_decimal (digits : Z) (scale : Z) : float :=
  SFdiv prec emax (round_int digits) (round_int (10 ^ scale)).

(** *** Decimal text *)

Definition digit_char (d : Z) : ascii :=
  match String.get (Z.to_nat d) "0123456789" with
  | Some c => c
  | None => "0"%char
  end.

(** [width] decimal digits of [v], most significant first, zero padded. *)
Fixpoint pad_digits (width : nat) (v : Z) : string :=
  match width with
  | O => EmptyString
  | S w => String.append (pad_digits w (v / 10))
                         (String (digit_char (v mod 10)) EmptyString)
  end.

(** [str(z)] and ["{:d}".format(z)] for an int. *)
Definition str_int (z : Z) : string := NilZero.string_of_int (Z.to_int z).

(** [m * 2^e * 10^places] rounded to an integer, ties to even. *)
Definition scaled_round (m : positive) (e : Z) (places : Z) : Z :=
  let num := Z.pos m * 10 ^ places in
  if 0 <=? e then num * 2 ^ e
  else
    let den := 2 ^ (- e) in
    let q := num / den in
    let r := num mod den in
    if (den <? 2 * r) || ((den =? 2 * r) && Z.odd q) then q + 1 else q.

Definition sign_str (s : bool) : string :=
  if s then "-"%string else EmptyString.

Definition fixed_digits (s : bool) (scaled : Z) (places : nat) : string :=
  let unit := 10 ^ Z.of_nat places in
  String.append (sign_str s)
    (String.append (str_int (scaled / unit))
       match places with
       | O => EmptyString
       | S _ => String "."%char (pad_digits places (scaled mod unit))
       end).

(** ["{:.{prec}f}".format(x, prec=places)]: fixed-point text of the exact
    value of [x], correctly rounded to [places] fractional digits. *)
Definition format_f (x : float) (places : nat) : string :=
  match x with
  | S754_nan => "nan"%string
  | S754_infinity s => String.append (sign_str s) "inf"
  | S754_zero s => fixed_digits s 0 places
  | S754_finite s m e =>
      fixed_digits s (scaled_round m e (Z.of_nat places)) places
  end.

(** *** Strings and sequences *)

Definition len (s : string) : Z := Z.of_nat (String.length s).

(** [s.split(sep)] for a one-character separator. *)
Fixpoint split (sep : ascii) (s : string) : list string :=
  match s with
  | EmptyString => [EmptyString]
  | String c rest =>
      if Ascii.eqb c sep then EmptyString :: split sep rest
      else match split sep rest with
           | hd :: tl => String c hd :: tl
           | [] => [String c EmptyString]
           end
  end.

(** [s.split(sep)[-1]] *)
Definition split_last (sep : ascii) (s : string) : string :=
  last (split sep s) EmptyString.

(** Index normalisation of a slice bound against a length. *)
Definition clamp (n : Z) (bound : Z) : nat :=
  Z.to_nat (if bound <? 0 then Z.max (n + bound) 0 else Z.min bound n).

(** [s[:stop]] *)
Definition str_upto (s : string) (stop : Z) : string :=
  String.substring 0 (clamp (len s) stop) s.

(** [a.startswith(b)] *)
Definition startswith (a b : string) : bool := String.prefix b a.

(** [s.lstrip(c)] for a one-character set. *)
Fixpoint lstrip (c : ascii) (s : string) : string :=
  match s with
  | String c' rest => if Ascii.eqb c' c then lstrip c rest else s
  | EmptyString => EmptyString
  end.

(** [range(n)] *)
Definition range (n : Z) : list Z := map Z.of_nat (seq 0 (Z.to_nat n)).

(** [l[start:]] *)
Definition list_from {A : Type} (l : list A) (start : Z) : list A :=
  skipn (clamp (Z.of_nat (List.length l)) start) l.

(** [l[:stop]] *)
Definition list_upto {A : Type} (l : list A) (stop : Z) : list A :=
  firstn (clamp (Z.of_nat (List.length l)) stop) l.

End Py.

Import Py.

(** ** Module-level helpers of the script *)

(** [is_even = lambda x: (x % 2) == 0] *)
Definition is_even (x : Z) : bool := (x mod 2) =? 0.

(** [is_odd = lambda x: (x & 1) == 1] *)
Definition is_odd (x : Z) : bool := Z.land x 1 =? 1.

(** The text of [str(math.pi)].  It is the one place where the interpreter
    generation shows: Python 2 prints twelve significant digits, Python 3 the
    shortest text that reads back as the same float. *)
Inductive interpreter := Python2 | Python3.

Definition str_pi (py : interpreter) : string :=
  match py with
  | Python2 => "3.14159265359"
  | Python3 => "3.141592653589793"
  end.

(** ** The [PiSearch] object *)

(** A series term as the program stores it: [(nominator, denominator)]. *)
Definition fraction : Type := Z * Z.

(** Attributes of an instance.  [last_fraction] and [_history] do not exist
    until they are first assigned.  [total] and [time] start as the int [0],
    which Python promotes to a float at the first assignment from a float;
    the record holds the float zero from the start. *)
Record PiSearch := mkPiSearch {
  last_operation : string;
  total : float;
  iterations : Z;
  num_digits_found : Z;
  start_time : option Z;
  time : float;
  last_fraction : option fraction;
  _history : option (list fraction)
}.

(** [PiSearch()] *)
Definition new_PiSearch : PiSearch :=
  {| last_operation := "add";
     total := fzero;
     iterations := 0;
     num_digits_found := 0;
     start_time := None;
     time := fzero;
     last_fraction := None;
     _history := None |}.

(** *** Methods run on [self]: state passing with exceptions *)

Definition M (A : Type) : Type := PiSearch -> result (A * PiSearch).

Definition ret {A : Type} (a : A) : M A := fun self => Ok (a, self).

Definition bind {A B : Type} (m : M A) (k : A -> M B) : M B :=
  fun self =>
    match m self with
    | Ok (a, self') => k a self'
    | Raise e => Raise e
    end.

Definition raise {A : Type} (e : exn) : M A := fun _ => Raise e.

Definition lift {A : Type} (r : result A) : M A :=
  fun self =>
    match r with
    | Ok a => Ok (a, self)
    | Raise e => Raise e
    end.

Definition get : M PiSearch := fun self => Ok (self, self).

Definition modify (f : PiSearch -> PiSearch) : M unit :=
  fun self => Ok (tt, f self).

Notation "x <- c1 ;; c2" := (bind c1 (fun x => c2))
  (at level 61, c1 at next level, right associativity).
Notation "' pat <- c1 ;; c2" := (bind c1 (fun x => match x with pat => c2 end))
  (at level 61, pat pattern, c1 at next level, right associativity).
Notation "c1 ;; c2" := (bind c1 (fun _ => c2))
  (at level 61, right associativity).

(** [assert(b)] *)
Definition py_assert (b : bool) : M unit :=
  if b then ret tt else raise AssertionError.

Definition set_total (x : float) (s : PiSearch) : PiSearch :=
  mkPiSearch (last_operation s) x (iterations s) (num_digits_found s)
             (start_time s) (time s) (last_fraction s) (_history s).

Definition set_iterations (x : Z) (s : PiSearch) : PiSearch :=
  mkPiSearch (last_operation s) (total s) x (num_digits_found s)
             (start_time s) (time s) (last_fraction s) (_history s).

Definition set_num_digits_found (x : Z) (s : PiSearch) : PiSearch :=
  mkPiSearch (last_operation s) (total s) (iterations s) x
             (start_time s) (time s) (last_fraction s) (_history s).

Definition set_start_time (x : Z) (s : PiSearch) : PiSearch :=
  mkPiSearch (last_operation s) (total s) (iterations s) (num_digits_found s)
             (Some x) (time s) (last_fraction s) (_history s).

Definition set_time (x : float) (s : PiSearch) : PiSearch :=
  mkPiSearch (last_operation s) (total s) (iterations s) (num_digits_found s)
             (start_time s) x (last_fraction s) (_history s).

Definition set_last_fraction (x : fraction) (s : PiSearch) : PiSearch :=
  mkPiSearch (last_operation s) (total s) (iterations s) (num_digits_found s)
             (start_time s) (time s) (Some x) (_history s).

Definition set_history (x : list fraction) (s : PiSearch) : PiSearch :=
  mkPiSearch (last_operation s) (total s) (iterations s) (num_digits_found s)
             (start_time s) (time s) (last_fraction s) (Some x).

(** Reading an attribute that was never assigned raises. *)
Definition attr {A : Type} (field : PiSearch -> option A) : M A :=
  self <- get ;;
  match field self with
  | Some v => ret v
  | None => raise AttributeError
  end.

(** What [log.info] is handed at a new best match. *)
Record milestone := mkMilestone {
  m_places : Z;
  m_iterations : Z;
  m_time : float;
  m_estimate : float
}.

Section Run.

(** The interpreter the script runs under. *)
Variable py : interpreter.

(** The wall clock: the reading of [datetime.datetime.now()] when [find_pi]
    starts, and the value of
    [(datetime.datetime.now() - self.start_time).total_seconds()] read while
    the term numbered [k] is being added. *)
Variable started : Z.
Variable elapsed : Z -> float.

(** [next_term(self, nominator, denominator)] *)
Definition next_term (nominator denominator : Z) : M float :=
  py_assert ((nominator =? 1) || (nominator =? -1)) ;;
  py_assert (denominator >? 0) ;;
  py_assert (is_odd denominator) ;;
  x <- lift (float_of_int nominator) ;;
  result <- lift (truediv_int x denominator) ;;
  ret result.

(** The [for] loop of [test_against_pi], over the indices it is given; the
    first index whose prefix matches ends the scan. *)
Fixpoint scan (pi_str remainder_str : string) (min_places : Z)
              (indices : list Z) : bool * Z :=
  match indices with
  | [] => (false, 0)
  | i :: rest =>
      let k := len remainder_str - i in
      if startswith pi_str (str_upto remainder_str k) then
        if k >=? min_places then (true, k) else (false, k)
      else scan pi_str remainder_str min_places rest
  end.

(** [pi_str = str(pi).split('.')[-1]] *)
Definition pi_str : string := split_last "." (str_pi py).

(** [remainder_str], the fractional digits of [n] at the precision of
    [pi_str]. *)
Definition remainder_str (n : float) : string :=
  let n_str := format_f n (String.length pi_str) in
  split_last "." n_str.

(** [range(len(remainder_str))[min_places:]] *)
Definition scan_indices (n : float) (min_places : Z) : list Z :=
  list_from (range (len (remainder_str n))) min_places.


(** [test_against_pi(self, n, min_places=1)] *)
Definition test_against_pi (n : float) (min_places : Z) : M (bool * Z) :=
  ret (scan pi_str (remainder_str n) min_places (scan_indices n min_places)).

(** [last_result(self)] *)
Definition last_result : M float :=
  self <- get ;;
  ret (fmul (total self) (round_int 4)).

(** ["{:d}/{:d}".format(nom, denom)] *)
Definition fraction_str (f : fraction) : string :=
  String.append (str_int (fst f)) (String.append "/" (str_int (snd f))).

(** [status(self)] *)
Definition status : M (Z * string * string * float) :=
  self <- get ;;
  f <- attr last_fraction ;;
  r <- last_result ;;
  ret (iterations self, fraction_str f,
       String.append (format_f (time self) 2) " seconds", r).

(** One pass of the [for] loop of [recent_history]. *)
Definition render_fraction (history_str : string) (f : fraction) : string :=
  let '(nom, denom) := f in
  let fraction_str := fraction_str (nom, denom) in
  if nom >? 0 then
    String.append history_str (String.append " + " fraction_str)
  else
    String.append history_str (String.append " - " (lstrip "-" fraction_str)).

(** [recent_history(self, num=10)] *)
Definition recent_history (num : Z) : M string :=
  h <- attr _history ;;
  ret (fold_left render_fraction (list_upto h num) "..."%string).

(** [_append_history(self, val)] *)
Definition _append_history (val : fraction) : M unit :=
  let max_history := 100 in
  self <- get ;;
  (match _history self with
   | None => modify (set_history [])
   | Some _ => ret tt
   end) ;;
  h <- attr _history ;;
  (if Z.of_nat (List.length h) >? max_history
   then modify (set_history (tl h))
   else ret tt) ;;
  h <- attr _history ;;
  modify (set_history (h ++ [val])).

(** The head of the loop body of [find_pi]: advance [i], skip even values,
    pick the sign and flip [operation].  [None] is the [continue]. *)
Definition next_fraction (i : Z) (operation : string)
  : Z * string * option fraction :=
  let i := i + 1 in
  if negb (is_odd i) then (i, operation, None)
  else
    let denominator := i in
    if String.eqb operation "add"
    then (i, "sub"%string, Some (1, denominator))
    else (i, "add"%string, Some (-1, denominator)).

(** The rest of the loop body, for a generated term: accumulate, record,
    match, and report a new best. *)
Definition accumulate (nominator denominator : Z) : M (option milestone) :=
  n <- next_term nominator denominator ;;
  modify (fun self => set_total (fadd (total self) n) self) ;;
  modify (fun self => set_iterations (iterations self + 1) self) ;;
  modify (fun self => set_time (elapsed (iterations self)) self) ;;
  modify (set_last_fraction (nominator, denominator)) ;;
  f <- attr last_fraction ;;
  _append_history f ;;
  status ;;
  r <- last_result ;;
  self <- get ;;
  ' (matched, num_places) <- test_against_pi r (num_digits_found self) ;;
  self <- get ;;
  if matched && (num_places >? num_digits_found self) then
    modify (set_num_digits_found num_places) ;;
    self <- get ;;
    r <- last_result ;;
    ret (Some (mkMilestone num_places (iterations self) (time self) r))
  else ret None.

(** One pass of the body of [while True] on the locals [(i, operation)]. *)
Definition find_pi_body (locals : Z * string)
  : M (Z * string * option milestone) :=
  let '(i, operation, term) := next_fraction (fst locals) (snd locals) in
  match term with
  | None => ret (i, operation, None)
  | Some (nominator, denominator) =>
      m <- accumulate nominator denominator ;;
      ret (i, operation, m)
  end.

Definition emitted (m : option milestone) : list milestone :=
  match m with Some x => [x] | None => [] end.

(** [passes] passes of the loop, with the milestones logged on the way. *)
Fixpoint find_pi_loop (passes : nat) (locals : Z * string)
  : M (Z * string * list milestone) :=
  match passes with
  | O => ret (locals, [])
  | S p =>
      ' (i, operation, m) <- find_pi_body locals ;;
      ' (locals', ms) <- find_pi_loop p (i, operation) ;;
      ret (locals', emitted m ++ ms)
  end.

(** [find_pi(self)], interrupted after [passes] passes of its loop. *)
Definition find_pi (passes : nat) : M (Z * string * list milestone) :=
  modify (set_start_time started) ;;
  find_pi_loop passes (0, "add"%string).

(** The terms the loop head generates in its first [passes] passes. *)
Fixpoint fractions_from (passes : nat) (i : Z) (operation : string)
  : list fraction :=
  match passes with
  | O => []
  | S p =>
      let '(i', operation', term) := next_fraction i operation in
      match term with
      | Some f => f :: fractions_from p i' operation'
      | None => fractions_from p i' operation'
      end
  end.

Definition fractions (passes : nat) : list fraction :=
  fractions_from passes 0 "add".

(** The instance after [find_pi] has run for [passes] passes on a fresh
    object, when no exception was raised. *)
Definition run (passes : nat) : option PiSearch :=
  match find_pi passes new_PiSearch with
  | Ok (_, self) => Some self
  | Raise _ => None
  end.

End Run.

(** ** Vocabulary of the statements *)

(** [c] occurs in [s]. *)
Fixpoint contains (c : ascii) (s : string) : bool :=
  match s with
  | EmptyString => false
  | String c' rest => Ascii.eqb c' c || contains c rest
  end.

(** The three assertions at the head of [next_term], as one test. *)
Definition next_term_asserts (nominator denominator : Z) : bool :=
  ((nominator =? 1) || (nominator =? -1))
  && (denominator >? 0)
  && is_odd denominator.

(** The sign the series gives its [k]-th term, counting from one. *)
Definition series_sign (k : nat) : Z := if Nat.odd k then 1 else -1.

(** The prefix test of the scan at length [k]. *)
Definition hit (py : interpreter) (n : float) (k : Z) : bool :=
  startswith (pi_str py) (str_upto (remainder_str py n) k).


(** The estimate [last_result] reports for an instance. *)
Definition estimate (self : PiSearch) : float :=
  fmul (total self) (round_int 4).

(** The text the matcher formats an estimate to. *)
Definition estimate_text (py : interpreter) (self : PiSearch) : string :=
  format_f (estimate self) (String.length (pi_str py)).

(** The buffer [_append_history] leaves behind. *)
Definition appended (h : option (list fraction)) (val : fraction)
  : list fraction :=
  let h := match h with Some l => l | None => [] end in
  (if Z.of_nat (List.length h) >? 100 then tl h else h) ++ [val].

(** [num_digits_found] went up between [self] and [self'], to the count
    the matcher reported as a match for the estimate of [self']. *)
Definition updated_by_match (py : interpreter) (self self' : PiSearch)
  : Prop :=
  num_digits_found self < num_digits_found self'
  /\ test_against_pi py (estimate self') (num_digits_found self) self'
     = Ok ((true, num_digits_found self'), self').

(** The number of entries in the history buffer, none before the first
    append. *)
Definition history_length (self : PiSearch) : nat :=
  match _history self with Some l => List.length l | None => O end.

(** After [passes] passes of a fresh run: the number of terms added, and
    whether the text of the estimate begins with [text]. *)
Definition estimate_begins (py : interpreter) (started : Z)
    (elapsed : Z -> float) (passes : nat) (text : string)
  : option (Z * bool) :=
  match run py started elapsed passes with
  | Some self => Some (iterations self, startswith (estimate_text py self) text)
  | None => None
  end.

(** The first terms of the series. *)
Definition six_terms : list fraction :=
  [(1, 1); (-1, 3); (1, 5); (-1, 7); (1, 9); (-1, 11)].

(** The entries of the history buffer, none while the attribute is
    missing. *)
Definition history_entries (self : PiSearch) : list fraction :=
  match _history self with Some l => l | None => [] end.

(** The last [n] elements of a list, all of it when it is shorter. *)
Definition newest {A : Type} (n : nat) (l : list A) : list A :=
  skipn (List.length l - n) l.

(** The float [next_term] computes for a term: nominator and denominator
    converted, then divided with one rounding. *)
Definition term_value (f : fraction) : float :=
  SFdiv prec emax (round_int (fst f)) (round_int (snd f)).

(** A total after the terms [fs] were added to it, in order. *)
Definition add_terms (start : float) (fs : list fraction) : float :=
  fold_left (fun acc f => fadd acc (term_value f)) fs start.

(** Zeros and finite values, as opposed to infinities and nan. *)
Definition is_finite (x : float) : bool :=
  match x with
  | S754_zero _ | S754_finite _ _ _ => true
  | S754_infinity _ | S754_nan => false
  end.

(** What the three assertions of [next_term] ask of its arguments. *)
Definition next_term_pre (nominator denominator : Z) : Prop :=
  (nominator = 1 \/ nominator = -1)
  /\ 0 < denominator
  /\ Z.odd denominator = true.

(** ** Facts about the runtime helpers *)

Lemma length_append (a b : string) :
  String.length (String.append a b) = (String.length a + String.length b)%nat.
Proof.
  induction a as [|c a IH]; simpl; [reflexivity | now rewrite IH].
Qed.

Lemma append_assoc (a b c : string) :
  String.append a (String.append b c) = String.append (String.append a b) c.
Proof.
  induction a as [|x a IH]; simpl; [reflexivity | now rewrite IH].
Qed.

Lemma contains_append (c : ascii) (a b : string) :
  contains c (String.append a b) = contains c a || contains c b.
Proof.
  induction a as [|x a IH]; simpl; [reflexivity |].
  now rewrite IH, orb_assoc.
Qed.

Lemma digit_char_not_dot (d : Z) : Ascii.eqb (digit_char d) "." = false.
Proof.
  unfold digit_char.
  destruct (Z.to_nat d) as [|[|[|[|[|[|[|[|[|[|k]]]]]]]]]]; reflexivity.
Qed.

Lemma length_pad_digits (w : nat) : forall v, String.length (pad_digits w v) = w.
Proof.
  induction w as [|w IH]; intros v; simpl; [reflexivity |].
  rewrite length_append, IH; simpl; lia.
Qed.

Lemma pad_digits_no_dot (w : nat) : forall v, contains "." (pad_digits w v) = false.
Proof.
  induction w as [|w IH]; intros v; simpl; [reflexivity |].
  rewrite contains_append, IH; simpl.
  now rewrite digit_char_not_dot.
Qed.

Lemma split_not_nil (sep : ascii) (s : string) : split sep s <> [].
Proof.
  destruct s as [|c s]; simpl; [discriminate |].
  destruct (Ascii.eqb c sep); [discriminate |].
  destruct (split sep s); discriminate.
Qed.

Lemma split_no_sep (sep : ascii) (s : string) :
  contains sep s = false -> split sep s = [s].
Proof.
  induction s as [|c s IH]; simpl; [reflexivity |].
  intros H; apply orb_false_iff in H; destruct H as [Hc Hs].
  now rewrite Hc, (IH Hs).
Qed.

(** Splitting at the last separator: what follows it is the last piece. *)
Lemma split_app_sep (sep : ascii) (tail_ : string) :
  contains sep tail_ = false ->
  forall a, exists l,
    split sep (String.append a (String sep tail_)) = l ++ [tail_] /\ l <> [].
Proof.
  intros Ht a; induction a as [|c a [l [IH Hl]]]; simpl.
  - rewrite Ascii.eqb_refl, (split_no_sep _ _ Ht).
    exists [EmptyString]; split; [reflexivity | discriminate].
  - rewrite IH. destruct (Ascii.eqb c sep).
    + exists (EmptyString :: l); split; [reflexivity | discriminate].
    + destruct l as [|hd tl]; [contradiction |].
      exists (String c hd :: tl); split; [reflexivity | discriminate].
Qed.

Lemma split_last_app_sep (sep : ascii) (a tail_ : string) :
  contains sep tail_ = false ->
  split_last sep (String.append a (String sep tail_)) = tail_.
Proof.
  intros Ht; unfold split_last.
  destruct (split_app_sep sep tail_ Ht a) as [l [-> _]].
  apply last_last.
Qed.

Lemma length_range (n : Z) : List.length (range n) = Z.to_nat n.
Proof. unfold range; now rewrite length_map, length_seq. Qed.

Lemma skipn_seq (k a n : nat) : skipn k (seq a n) = seq (a + k) (n - k).
Proof.
  revert a n; induction k as [|k IH]; intros a n; simpl.
  - now rewrite Nat.add_0_r, Nat.sub_0_r.
  - destruct n as [|n]; simpl; [reflexivity |].
    rewrite IH; f_equal; lia.
Qed.

(** [range(n)[start:]] for a start that is not negative. *)
Lemma range_from (n start : Z) :
  0 <= n -> 0 <= start ->
  list_from (range n) start
  = map Z.of_nat (seq (Z.to_nat (Z.min start n)) (Z.to_nat (n - start))).
Proof.
  intros Hn Hs; unfold list_from, clamp.
  rewrite length_range, Z2Nat.id by assumption.
  destruct (Z.ltb_spec start 0) as [|_]; [lia |].
  unfold range; rewrite skipn_map, skipn_seq; simpl.
  do 2 f_equal; lia.
Qed.

(** ** Facts about the digit matcher *)

Lemma pi_str_length (py : interpreter) :
  exists p, String.length (pi_str py) = S p.
Proof. destruct py; vm_compute; eauto. Qed.

Lemma remainder_str_fixed (py : interpreter) (s : bool) (scaled : Z) :
  String.length
    (split_last "." (fixed_digits s scaled (String.length (pi_str py))))
  = String.length (pi_str py).
Proof.
  destruct (pi_str_length py) as [p ->].
  cbv beta iota delta [fixed_digits].
  rewrite append_assoc, split_last_app_sep by apply pad_digits_no_dot.
  apply length_pad_digits.
Qed.

(** The formatted fractional digits are never longer than the reference. *)
Lemma remainder_str_length (py : interpreter) (n : float) :
  len (remainder_str py n) <= len (pi_str py).
Proof.
  unfold len, remainder_str; apply inj_le.
  destruct n as [s|s| |s m e]; cbv beta iota delta [format_f].
  - now rewrite remainder_str_fixed.
  - destruct py, s; vm_compute; lia.
  - destruct py; vm_compute; lia.
  - now rewrite remainder_str_fixed.
Qed.


(** The scan over a contiguous run of indices ending at the last one:
    it stops at the longest matching prefix length the run covers. *)
Lemma scan_seq (pi_s rem : string) (mp : Z) (c : nat) : forall a,
  Z.of_nat a + Z.of_nat c = len rem ->
  let test k := startswith pi_s (str_upto rem k) in
  let r := scan pi_s rem mp (map Z.of_nat (seq a c)) in
  (snd r = 0 /\ fst r = false
   /\ forall j, 1 <= j <= Z.of_nat c -> test j = false)
  \/ (1 <= snd r <= Z.of_nat c /\ test (snd r) = true
      /\ (forall j, snd r < j <= Z.of_nat c -> test j = false)
      /\ fst r = (mp <=? snd r)).
Proof.
  induction c as [|c IH]; intros a Ha test r.
  - left; repeat split; intros; lia.
  - subst r; cbn [seq map scan].
    replace (len rem - Z.of_nat a) with (Z.of_nat (S c)) by lia.
    fold (test (Z.of_nat (S c))).
    destruct (test (Z.of_nat (S c))) eqn:Htop.
    + right.
      assert (Hb : (if Z.of_nat (S c) >=? mp
                    then (true, Z.of_nat (S c)) else (false, Z.of_nat (S c)))
                   = (mp <=? Z.of_nat (S c), Z.of_nat (S c))).
      { rewrite Z.geb_leb; now destruct (mp <=? Z.of_nat (S c)). }
      rewrite Hb; cbn [fst snd].
      repeat split; try lia; try assumption; intros; lia.
    + specialize (IH (S a) ltac:(lia)); cbv zeta in IH.
      set (r := scan pi_s rem mp (map Z.of_nat (seq (S a) c))) in *.
      assert (Hstep : forall j lo, lo <= j <= Z.of_nat (S c) ->
                (forall j', lo <= j' <= Z.of_nat c -> test j' = false) ->
                test j = false).
      { intros j lo Hj Hall.
        destruct (Z.eq_dec j (Z.of_nat (S c))) as [->|]; [assumption |].
        apply Hall; lia. }
      destruct IH as [(Hk & Hf & Hall) | (Hk & Hhit & Hall & Hf)].
      * left; repeat split; try assumption.
        intros j Hj; apply (Hstep j 1); [lia | assumption].
      * right; repeat split; try lia; try assumption.
        intros j Hj; apply (Hstep j (snd r + 1)); [lia |].
        intros j' Hj'; apply Hall; lia.
Qed.

Lemma scan_indices_eq (py : interpreter) (n : float) (mp : Z) :
  0 <= mp ->
  let L := len (remainder_str py n) in
  scan_indices py n mp
  = map Z.of_nat (seq (Z.to_nat (Z.min mp L)) (Z.to_nat (L - mp))).
Proof.
  intros Hmp L; unfold scan_indices.
  apply range_from; [apply Nat2Z.is_nonneg | assumption].
Qed.

(** ** Claims about the digit matcher *)

(** C1.  The four documented calls of [test_against_pi] return what the
    docstring records: [(False, 2)], [(True, 2)], [(True, 5)] and
    [(False, 0)]; under either interpreter generation, and on any instance. *)
Theorem test_against_pi_doctests (py : interpreter) (self : PiSearch) :
  test_against_pi py (float_of_decimal 3140000 6) 3 self
    = Ok ((false, 2), self)
  /\ test_against_pi py (float_of_decimal 3140000 6) 2 self
    = Ok ((true, 2), self)
  /\ test_against_pi py (float_of_decimal 3141599 6) 1 self
    = Ok ((true, 5), self)
  /\ test_against_pi py (float_of_decimal 3555555 6) 1 self
    = Ok ((false, 0), self).
Proof.
  destruct py; repeat apply conj; vm_compute; reflexivity.
Qed.






(** C7.  With [min_places] at or above the length of the reference digit
    string the slice of indices is empty, and the matcher returns
    [(False, 0)] for every estimate. *)
Theorem min_places_beyond_reference (py : interpreter) (n : float)
    (min_places : Z) (self : PiSearch)
    (Hmin : len (pi_str py) <= min_places) :
  scan_indices py n min_places = []
  /\ test_against_pi py n min_places self = Ok ((false, 0), self).
Proof.
  pose proof (remainder_str_length py n) as HL.
  assert (H0 : 0 <= len (remainder_str py n)) by apply Nat2Z.is_nonneg.
  assert (Hnil : scan_indices py n min_places = []).
  { rewrite scan_indices_eq by lia.
    replace (Z.to_nat (len (remainder_str py n) - min_places)) with O by lia.
    reflexivity. }
  split; [assumption |].
  unfold test_against_pi, ret; now rewrite Hnil.
Qed.

Lemma min_places_beyond_reference_witness :
  len (pi_str Python3) <= 15
  /\ test_against_pi Python3 (float_of_decimal 3140000 6) 15 new_PiSearch
     = Ok ((false, 0), new_PiSearch).
Proof.
  assert (H : len (pi_str Python3) <= 15) by (vm_compute; discriminate).
  split; [exact H |].
  exact (proj2 (min_places_beyond_reference Python3
                  (float_of_decimal 3140000 6) 15 new_PiSearch H)).
Defined.

(** C10.  [test_against_pi] is a pure computation from its arguments: for
    given [n] and [min_places] it returns one and the same result on every
    instance, and the instance comes back with every attribute as it was.
    [last_result] returns four times [total] and also leaves every
    attribute as it was. *)
Theorem matcher_and_accessor_read_only (py : interpreter) (n : float)
    (min_places : Z) :
  (exists r, forall self : PiSearch,
      test_against_pi py n min_places self = Ok (r, self))
  /\ (forall self : PiSearch,
        last_result self = Ok (fmul (total self) (round_int 4), self)).
Proof.
  split.
  - exists (scan (pi_str py) (remainder_str py n) min_places
              (scan_indices py n min_places)).
    intros self; reflexivity.
  - intros self; reflexivity.
Qed.

(** ** Facts about the methods of the accumulator *)

Lemma next_term_eq (nominator denominator : Z) (self : PiSearch) :
  next_term nominator denominator self
  = if next_term_asserts nominator denominator then
      match float_of_int nominator with
      | Raise e => Raise e
      | Ok x =>
          match truediv_int x denominator with
          | Raise e => Raise e
          | Ok r => Ok (r, self)
          end
      end
    else Raise AssertionError.
Proof.
  cbv beta iota delta [next_term next_term_asserts py_assert bind lift ret
                       raise].
  destruct ((nominator =? 1) || (nominator =? -1)); cbn [andb];
    [| reflexivity].
  destruct (denominator >? 0); cbn [andb]; [| reflexivity].
  destruct (is_odd denominator); [| reflexivity].
  destruct (float_of_int nominator) as [x|e]; [| reflexivity].
  destruct (truediv_int x denominator); reflexivity.
Qed.

Lemma next_term_frame (nominator denominator : Z) (self : PiSearch) :
  forall n self', next_term nominator denominator self = Ok (n, self') ->
  self' = self.
Proof.
  intros n self'; rewrite next_term_eq.
  destruct (next_term_asserts nominator denominator); [| discriminate].
  destruct (float_of_int nominator) as [x|e]; [| discriminate].
  destruct (truediv_int x denominator); [| discriminate].
  congruence.
Qed.

(** With its assertions met, [next_term] can only fail in the arithmetic. *)
Lemma next_term_no_assertion_error (nominator denominator : Z)
    (self : PiSearch) :
  next_term_asserts nominator denominator = true ->
  next_term nominator denominator self <> Raise AssertionError.
Proof.
  intros Ha; rewrite next_term_eq, Ha.
  unfold float_of_int, truediv_int, float_of_int.
  destruct (float_max_int <=? Z.abs nominator); [discriminate |].
  destruct (float_max_int <=? Z.abs denominator); [discriminate |].
  destruct (denominator =? 0); discriminate.
Qed.

Lemma float_max_int_gt_one : 1 < float_max_int.
Proof. vm_compute; reflexivity. Qed.

(** With its assertions met and a denominator a float can hold,
    [next_term] returns. *)
Lemma next_term_returns (nominator denominator : Z) (self : PiSearch) :
  next_term_asserts nominator denominator = true ->
  denominator < float_max_int ->
  exists n, next_term nominator denominator self = Ok (n, self).
Proof.
  intros Ha Hd; rewrite next_term_eq, Ha.
  unfold next_term_asserts in Ha.
  apply andb_prop in Ha; destruct Ha as [Ha _].
  apply andb_prop in Ha; destruct Ha as [Hn Hpos].
  apply Z.gtb_lt in Hpos.
  pose proof float_max_int_gt_one as Hone.
  unfold float_of_int, truediv_int, float_of_int.
  destruct (Z.leb_spec float_max_int (Z.abs nominator)) as [Hbig|_].
  { apply orb_prop in Hn; destruct Hn as [Hn|Hn];
      apply Z.eqb_eq in Hn; subst nominator; simpl in Hbig; lia. }
  destruct (Z.leb_spec float_max_int (Z.abs denominator)) as [Hbig|_];
    [lia |].
  destruct (Z.eqb_spec denominator 0) as [Hz|_]; [lia |].
  eexists; reflexivity.
Qed.

Lemma append_history_eq (val : fraction) (self : PiSearch) :
  _append_history val self
  = Ok (tt, set_history (appended (_history self) val) self).
Proof.
  unfold _append_history, appended, bind, attr, get, modify, ret.
  destruct self as [lo t it nd st tm lf [h|]]; cbn.
  - destruct (Z.of_nat (List.length h) >? 100); reflexivity.
  - reflexivity.
Qed.

(** The buffer grows by one entry until it holds 101, and stays there. *)
Lemma appended_length (h : option (list fraction)) (val : fraction) :
  let old := match h with Some l => List.length l | None => O end in
  List.length (appended h val)
  = if Z.of_nat old >? 100 then old else S old.
Proof.
  unfold appended; destruct h as [l|]; cbn zeta beta iota.
  - destruct (Z.gtb_spec (Z.of_nat (List.length l)) 100) as [Hgt|_];
      rewrite length_app; simpl.
    + destruct l; simpl in *; lia.
    + lia.
  - reflexivity.
Qed.

(** The loop body on a generated term, as one state transformer. *)
Lemma accumulate_eq (py : interpreter) (elapsed : Z -> float)
    (nominator denominator : Z) (self : PiSearch) :
  accumulate py elapsed nominator denominator self
  = match next_term nominator denominator self with
    | Raise e => Raise e
    | Ok (n, _) =>
        let s :=
          set_history (appended (_history self) (nominator, denominator))
            (set_last_fraction (nominator, denominator)
               (set_time (elapsed (iterations self + 1))
                  (set_iterations (iterations self + 1)
                     (set_total (fadd (total self) n) self)))) in
        let r := scan (pi_str py) (remainder_str py (estimate s))
                   (num_digits_found self)
                   (scan_indices py (estimate s) (num_digits_found self)) in
        if fst r && (snd r >? num_digits_found self)
        then Ok (Some (mkMilestone (snd r) (iterations s) (time s)
                         (estimate s)),
                 set_num_digits_found (snd r) s)
        else Ok (None, s)
    end.
Proof.
  unfold accumulate; unfold bind at 1.
  destruct (next_term nominator denominator self) as [[n s']|e] eqn:E;
    [| reflexivity].
  apply next_term_frame in E; subst s'.
  destruct self as [lo t it nd st tm lf [h|]];
    [destruct (Z.of_nat (List.length h) >? 100) eqn:Hcap |].
  all: cbv beta iota zeta delta [bind modify get ret attr _append_history
    status last_result test_against_pi set_total set_iterations set_time
    set_last_fraction set_history set_num_digits_found appended estimate
    last_fraction iterations total num_digits_found start_time time
    last_operation _history raise fst snd].
  all: try rewrite Hcap;
       try change (Z.of_nat (List.length (@nil fraction)) >? 100) with false;
       cbv beta iota.
  all: match goal with
       | |- context [scan ?a ?b ?c ?d] => destruct (scan a b c d) as [m k]
       end.
  all: cbv beta iota; destruct (m && (k >? nd)); reflexivity.
Qed.

(** One accumulated term leaves [num_digits_found] as it was or raises it
    to a strictly greater matched count. *)
Lemma accumulate_num_digits_found (py : interpreter) (elapsed : Z -> float)
    (nominator denominator : Z) (self self' : PiSearch)
    (m : option milestone) :
  accumulate py elapsed nominator denominator self = Ok (m, self') ->
  num_digits_found self' = num_digits_found self
  \/ updated_by_match py self self'.
Proof.
  rewrite accumulate_eq.
  destruct (next_term nominator denominator self) as [[n s0]|e];
    [| discriminate].
  cbv zeta.
  set (s := set_history _ _).
  set (r := scan _ _ _ _).
  destruct (fst r && (snd r >? num_digits_found self)) eqn:Hup;
    intros H; inversion H; subst; clear H.
  - right. apply andb_prop in Hup; destruct Hup as [Hm Hgt].
    apply Z.gtb_lt in Hgt. split; [exact Hgt |].
    unfold test_against_pi, ret.
    change (estimate (set_num_digits_found (snd r) s)) with (estimate s).
    fold r. cbn [num_digits_found set_num_digits_found].
    destruct r as [b k]; cbn [fst snd] in *; now subst b.
  - left; reflexivity.
Qed.

Lemma body_num_digits_found (py : interpreter) (elapsed : Z -> float)
    (locals : Z * string) (self self' : PiSearch)
    (r : Z * string * option milestone) :
  find_pi_body py elapsed locals self = Ok (r, self') ->
  num_digits_found self' = num_digits_found self
  \/ updated_by_match py self self'.
Proof.
  unfold find_pi_body.
  destruct (next_fraction (fst locals) (snd locals)) as [[i op] [[nom den]|]].
  - unfold bind.
    destruct (accumulate py elapsed nom den self) as [[m s]|e] eqn:E;
      [| discriminate].
    unfold ret; intros H; inversion H; subst.
    eapply accumulate_num_digits_found; eassumption.
  - unfold ret; intros H; inversion H; subst; now left.
Qed.

Lemma step_le (py : interpreter) (self self' : PiSearch) :
  num_digits_found self' = num_digits_found self
  \/ updated_by_match py self self' ->
  num_digits_found self <= num_digits_found self'.
Proof. intros [H|[H _]]; lia. Qed.

(** The unfolding of one more pass at the front of the loop. *)
Lemma find_pi_loop_S (py : interpreter) (elapsed : Z -> float) (p : nat)
    (locals : Z * string) (self : PiSearch) :
  find_pi_loop py elapsed (S p) locals self
  = match find_pi_body py elapsed locals self with
    | Raise e => Raise e
    | Ok ((i, operation, m), s) =>
        match find_pi_loop py elapsed p (i, operation) s with
        | Raise e => Raise e
        | Ok ((locals', ms), s') => Ok ((locals', emitted m ++ ms), s')
        end
    end.
Proof.
  cbn [find_pi_loop]; unfold bind at 1.
  destruct (find_pi_body py elapsed locals self) as [[[[i op] m] s]|e];
    [| reflexivity].
  unfold bind.
  destruct (find_pi_loop py elapsed p (i, op) s) as [[[l ms] s']|e];
    reflexivity.
Qed.

Lemma loop_num_digits_found (py : interpreter) (elapsed : Z -> float)
    (p : nat) : forall locals self r self',
  find_pi_loop py elapsed p locals self = Ok (r, self') ->
  num_digits_found self <= num_digits_found self'.
Proof.
  induction p as [|p IH]; intros locals self r self'.
  - cbn; unfold ret; intros H; inversion H; lia.
  - rewrite find_pi_loop_S.
    destruct (find_pi_body py elapsed locals self) as [[[[i op] m] s]|e] eqn:B;
      [| discriminate].
    destruct (find_pi_loop py elapsed p (i, op) s) as [[[l ms] s'']|e] eqn:L;
      [| discriminate].
    intros H; inversion H; subst.
    apply body_num_digits_found in B; apply (step_le py) in B.
    apply IH in L; lia.
Qed.

(** A run of [p + d] passes is a run of [p] passes followed by one of [d]. *)
Lemma find_pi_loop_add (py : interpreter) (elapsed : Z -> float) (d : nat)
    (p : nat) : forall locals self r self',
  find_pi_loop py elapsed (p + d) locals self = Ok (r, self') ->
  exists locals1 ms1 s1 ms2,
    find_pi_loop py elapsed p locals self = Ok ((locals1, ms1), s1)
    /\ find_pi_loop py elapsed d locals1 s1 = Ok ((fst r, ms2), self').
Proof.
  induction p as [|p IH]; intros locals self r self' H.
  - exists locals, [], self, (snd r); split; [reflexivity |].
    cbn [Nat.add] in H; rewrite H; now destruct r.
  - cbn [Nat.add] in H; rewrite find_pi_loop_S in H |- *.
    destruct (find_pi_body py elapsed locals self) as [[[[i op] m] s]|e];
      [| discriminate].
    destruct (find_pi_loop py elapsed (p + d) (i, op) s)
      as [[[l ms] s'']|e] eqn:L; [| discriminate].
    inversion H; subst; clear H.
    destruct (IH _ _ _ _ L) as (l1 & ms1 & s1 & ms2 & Hp & Hd).
    rewrite Hp. exists l1, (emitted m ++ ms1), s1, ms2; split;
      [reflexivity | exact Hd].
Qed.

Lemma run_eq (py : interpreter) (started : Z) (elapsed : Z -> float)
    (passes : nat) :
  run py started elapsed passes
  = match find_pi_loop py elapsed passes (0, "add"%string)
            (set_start_time started new_PiSearch) with
    | Ok (_, self) => Some self
    | Raise _ => None
    end.
Proof. reflexivity. Qed.

(** ** Facts about the term generator *)

Lemma is_odd_odd (x : Z) : is_odd x = Z.odd x.
Proof.
  unfold is_odd. change 1 with (Z.ones 1) at 1.
  rewrite Z.land_ones by lia. change (2 ^ 1) with 2.
  rewrite Zmod_odd. now destruct (Z.odd x).
Qed.

Lemma next_fraction_eq (i : Z) (operation : string) :
  next_fraction i operation
  = if Z.even i
    then (i + 1,
          if String.eqb operation "add" then "sub"%string else "add"%string,
          Some (if String.eqb operation "add" then 1 else -1, i + 1))
    else (i + 1, operation, None).
Proof.
  unfold next_fraction. rewrite is_odd_odd.
  replace (i + 1) with (Z.succ i) by lia. rewrite Z.odd_succ.
  destruct (Z.even i); cbn [negb]; [| reflexivity].
  destruct (String.eqb operation "add"); reflexivity.
Qed.

Lemma next_fraction_asserts (i : Z) (operation : string) :
  0 <= i ->
  forall i' operation' nominator denominator,
  next_fraction i operation = (i', operation', Some (nominator, denominator)) ->
  next_term_asserts nominator denominator = true /\ denominator = i + 1.
Proof.
  intros Hi i' op' nom den; rewrite next_fraction_eq.
  destruct (Z.even i) eqn:He; [| discriminate].
  intros H; inversion H; subst; clear H.
  split; [| reflexivity].
  unfold next_term_asserts. rewrite is_odd_odd.
  replace (i + 1) with (Z.succ i) by lia. rewrite Z.odd_succ, He.
  rewrite andb_true_r. apply andb_true_intro; split.
  - destruct (String.eqb operation "add"); reflexivity.
  - apply Z.gtb_lt; lia.
Qed.

Lemma next_fraction_counter (i : Z) (operation : string) :
  fst (fst (next_fraction i operation)) = i + 1.
Proof.
  rewrite next_fraction_eq.
  destruct (Z.even i); reflexivity.
Qed.

Lemma fractions_from_two (p : nat) (i : Z) (operation : string) :
  Z.even i = true ->
  fractions_from (S (S p)) i operation
  = (if String.eqb operation "add" then 1 else -1, i + 1)
    :: fractions_from p (i + 2)
         (if String.eqb operation "add" then "sub" else "add")%string.
Proof.
  intros He. cbn [fractions_from].
  rewrite (next_fraction_eq i), He.
  rewrite next_fraction_eq.
  replace (i + 1) with (Z.succ i) by lia.
  rewrite Z.even_succ, <- Z.negb_even, He; cbn [negb].
  do 2 f_equal; lia.
Qed.

Lemma fractions_from_one (i : Z) (operation : string) :
  Z.even i = true ->
  fractions_from 1 i operation
  = [(if String.eqb operation "add" then 1 else -1, i + 1)].
Proof.
  intros He. cbn [fractions_from].
  now rewrite (next_fraction_eq i), He.
Qed.

Lemma series_sign_succ (k : nat) : series_sign (S k) = - series_sign k.
Proof.
  unfold series_sign. rewrite Nat.odd_succ, <- Nat.negb_odd.
  now destruct (Nat.odd k).
Qed.

(** The term at position [k], counted from zero, from an even counter. *)
Lemma fractions_from_nth (k : nat) : forall p i,
  Z.even i = true -> (2 * k + 1 <= p)%nat ->
  nth_error (fractions_from p i "add") k
    = Some (series_sign (S k), i + 2 * Z.of_nat k + 1)
  /\ nth_error (fractions_from p i "sub") k
    = Some (- series_sign (S k), i + 2 * Z.of_nat k + 1).
Proof.
  induction k as [|k IH]; intros p i He Hp.
  - destruct p as [|[|p]]; [lia | |].
    + rewrite !fractions_from_one by assumption.
      split; cbn; do 2 f_equal; lia.
    + rewrite !fractions_from_two by assumption.
      split; cbn; do 2 f_equal; lia.
  - destruct p as [|[|p]]; [lia | lia |].
    rewrite !fractions_from_two by assumption.
    cbn [String.eqb Ascii.eqb Bool.eqb nth_error].
    assert (He2 : Z.even (i + 2) = true).
    { replace (i + 2) with (Z.succ (Z.succ i)) by lia.
      now rewrite Z.even_succ_succ. }
    destruct (IH p (i + 2) He2 ltac:(lia)) as [Ha Hs].
    rewrite (series_sign_succ (S k)).
    split.
    + rewrite Hs. do 2 f_equal; lia.
    + rewrite Ha, Z.opp_involutive. do 2 f_equal; lia.
Qed.

(** Two passes of the loop head yield one term. *)
Lemma fractions_from_length (k : nat) : forall i operation,
  Z.even i = true ->
  List.length (fractions_from (2 * k) i operation) = k
  /\ List.length (fractions_from (2 * k + 1) i operation) = S k.
Proof.
  induction k as [|k IH]; intros i op He.
  - split; [reflexivity |].
    cbn [Nat.mul Nat.add]. now rewrite fractions_from_one.
  - replace (2 * S k)%nat with (S (S (2 * k))) by lia.
    replace (S (S (2 * k)) + 1)%nat with (S (S (2 * k + 1))) by lia.
    rewrite !fractions_from_two by assumption.
    assert (He2 : Z.even (i + 2) = true).
    { replace (i + 2) with (Z.succ (Z.succ i)) by lia.
      now rewrite Z.even_succ_succ. }
    destruct (IH (i + 2)
                (if String.eqb op "add" then "sub" else "add")%string He2)
      as [H1 H2].
    cbn [List.length]. now rewrite H1, H2.
Qed.

Lemma fractions_from_asserts (p : nat) : forall i operation,
  0 <= i ->
  Forall (fun f => next_term_asserts (fst f) (snd f) = true)
         (fractions_from p i operation).
Proof.
  induction p as [|p IH]; intros i op Hi; [constructor |].
  cbn [fractions_from].
  destruct (next_fraction i op) as [[i' op'] term] eqn:E.
  pose proof (next_fraction_counter i op) as Hc.
  rewrite E in Hc; cbn in Hc; subst i'.
  destruct term as [[nom den]|].
  - constructor; [| apply IH; lia].
    now destruct (next_fraction_asserts i op Hi _ _ _ _ E).
  - apply IH; lia.
Qed.

(** ** Facts about the main loop *)

(** What one accumulated term does to the bookkeeping attributes. *)
Lemma accumulate_effect (py : interpreter) (elapsed : Z -> float)
    (nominator denominator : Z) (self self' : PiSearch)
    (m : option milestone) :
  accumulate py elapsed nominator denominator self = Ok (m, self') ->
  iterations self' = iterations self + 1
  /\ last_fraction self' = Some (nominator, denominator)
  /\ _history self'
     = Some (appended (_history self) (nominator, denominator)).
Proof.
  rewrite accumulate_eq.
  destruct (next_term nominator denominator self) as [[n s0]|e];
    [| discriminate].
  cbv zeta.
  match goal with
  | |- context [if ?c then _ else _] => destruct c
  end; intros H; inversion H; subst; repeat split.
Qed.

Lemma accumulate_no_assertion_error (py : interpreter)
    (elapsed : Z -> float) (nominator denominator : Z) (self : PiSearch) :
  next_term_asserts nominator denominator = true ->
  accumulate py elapsed nominator denominator self <> Raise AssertionError.
Proof.
  intros Ha; rewrite accumulate_eq.
  pose proof (next_term_no_assertion_error _ _ self Ha) as Hn.
  destruct (next_term nominator denominator self) as [[n s0]|e];
    [| congruence].
  cbv zeta.
  match goal with
  | |- context [if ?c then _ else _] => destruct c
  end; discriminate.
Qed.

Lemma accumulate_returns (py : interpreter) (elapsed : Z -> float)
    (nominator denominator : Z) (self : PiSearch) :
  next_term_asserts nominator denominator = true ->
  denominator < float_max_int ->
  exists m self', accumulate py elapsed nominator denominator self
                  = Ok (m, self').
Proof.
  intros Ha Hd; rewrite accumulate_eq.
  destruct (next_term_returns _ _ self Ha Hd) as [n ->].
  cbv zeta.
  match goal with
  | |- context [if ?c then _ else _] => destruct c
  end; eauto.
Qed.

Lemma body_counter (py : interpreter) (elapsed : Z -> float)
    (locals : Z * string) (self self' : PiSearch) (i : Z) (op : string)
    (m : option milestone) :
  find_pi_body py elapsed locals self = Ok ((i, op, m), self') ->
  (i, op) = fst (next_fraction (fst locals) (snd locals)).
Proof.
  unfold find_pi_body.
  destruct (next_fraction (fst locals) (snd locals))
    as [[i' op'] [[nom den]|]]; cbn [fst].
  - unfold bind.
    destruct (accumulate py elapsed nom den self) as [[m' s]|e];
      [| discriminate].
    unfold ret; intros H; inversion H; reflexivity.
  - unfold ret; intros H; inversion H; reflexivity.
Qed.

Lemma body_no_assertion_error (py : interpreter) (elapsed : Z -> float)
    (locals : Z * string) (self : PiSearch) :
  0 <= fst locals ->
  find_pi_body py elapsed locals self <> Raise AssertionError.
Proof.
  intros Hi; unfold find_pi_body.
  destruct (next_fraction (fst locals) (snd locals))
    as [[i' op'] [[nom den]|]] eqn:E; [| discriminate].
  destruct (next_fraction_asserts _ _ Hi _ _ _ _ E) as [Ha _].
  pose proof (accumulate_no_assertion_error py elapsed nom den self Ha) as Hn.
  unfold bind.
  destruct (accumulate py elapsed nom den self) as [[m s]|e];
    [discriminate | congruence].
Qed.

Lemma loop_no_assertion_error (py : interpreter) (elapsed : Z -> float)
    (p : nat) : forall locals self,
  0 <= fst locals ->
  find_pi_loop py elapsed p locals self <> Raise AssertionError.
Proof.
  induction p as [|p IH]; intros locals self Hi; [discriminate |].
  rewrite find_pi_loop_S.
  pose proof (body_no_assertion_error py elapsed locals self Hi) as Hb.
  destruct (find_pi_body py elapsed locals self) as [[[[i op] m] s]|e] eqn:B;
    [| congruence].
  apply body_counter in B.
  pose proof (next_fraction_counter (fst locals) (snd locals)) as Hc.
  rewrite <- B in Hc; cbn [fst] in Hc.
  specialize (IH (i, op) s ltac:(cbn [fst]; lia)).
  destruct (find_pi_loop py elapsed p (i, op) s) as [[[l ms] s']|e];
    [discriminate | congruence].
Qed.

(** As long as the counter stays below what a float can hold, every pass
    returns. *)
Lemma loop_returns (py : interpreter) (elapsed : Z -> float) (p : nat) :
  forall locals self,
  0 <= fst locals ->
  fst locals + Z.of_nat p < float_max_int ->
  exists r self', find_pi_loop py elapsed p locals self = Ok (r, self').
Proof.
  induction p as [|p IH]; intros locals self Hi Hp.
  - cbn; unfold ret; eauto.
  - rewrite find_pi_loop_S.
    assert (Hb : exists i op m s,
               find_pi_body py elapsed locals self = Ok ((i, op, m), s)).
    { unfold find_pi_body.
      destruct (next_fraction (fst locals) (snd locals))
        as [[i' op'] [[nom den]|]] eqn:E.
      - destruct (next_fraction_asserts _ _ Hi _ _ _ _ E) as [Ha Hd].
        destruct (accumulate_returns py elapsed nom den self Ha
                    ltac:(lia)) as (m & s & Hacc).
        unfold bind; rewrite Hacc; unfold ret; eauto.
      - unfold ret; eauto. }
    destruct Hb as (i & op & m & s & Hb); rewrite Hb.
    apply body_counter in Hb.
    pose proof (next_fraction_counter (fst locals) (snd locals)) as Hc.
    rewrite <- Hb in Hc; cbn [fst] in Hc.
    destruct (IH (i, op) s ltac:(cbn [fst]; lia) ltac:(cbn [fst]; lia))
      as ([l ms] & s' & Hl).
    rewrite Hl; eauto.
Qed.

Lemma last_cons_default {A : Type} (l : list A) (a d : A) :
  last (a :: l) d = last l a.
Proof.
  revert a d; induction l as [|b l IH]; intros a d; [reflexivity |].
  change (last (a :: b :: l) d) with (last (b :: l) d).
  now rewrite (IH b d), (IH b a).
Qed.

(** The accumulator follows the generator: the terms counted and the term
    remembered are those of [fractions_from]. *)
Lemma loop_tracks_fractions (py : interpreter) (elapsed : Z -> float)
    (p : nat) : forall i op self r self',
  find_pi_loop py elapsed p (i, op) self = Ok (r, self') ->
  iterations self'
    = iterations self + Z.of_nat (List.length (fractions_from p i op))
  /\ last_fraction self'
    = last (map Some (fractions_from p i op)) (last_fraction self).
Proof.
  induction p as [|p IH]; intros i op self r self'.
  - cbn; unfold ret; intros H; inversion H; subst; split; [lia | reflexivity].
  - rewrite find_pi_loop_S. cbn [fractions_from].
    unfold find_pi_body; cbn [fst snd].
    destruct (next_fraction i op) as [[i' op'] [[nom den]|]].
    + unfold bind at 1.
      destruct (accumulate py elapsed nom den self) as [[m s]|e] eqn:A;
        [| discriminate].
      unfold ret.
      destruct (find_pi_loop py elapsed p (i', op') s)
        as [[[l ms] s'']|e] eqn:L; [| discriminate].
      intros H; inversion H; subst; clear H.
      apply accumulate_effect in A; destruct A as (Hit & Hlf & _).
      apply IH in L; destruct L as [L1 L2].
      rewrite L1, L2, Hit, Hlf. cbn [List.length map].
      rewrite last_cons_default. split; [lia | reflexivity].
    + unfold ret.
      destruct (find_pi_loop py elapsed p (i', op') self)
        as [[[l ms] s'']|e] eqn:L; [| discriminate].
      intros H; inversion H; subst; clear H.
      now apply IH in L.
Qed.

Lemma last_of_nth_error {A : Type} (l : list A) (x : A) (d : option A) :
  nth_error l (Nat.pred (List.length l)) = Some x ->
  last (map Some l) d = Some x.
Proof.
  revert d; induction l as [|a l IH]; intros d H; [discriminate |].
  cbn [map]. rewrite last_cons_default.
  destruct l as [|b l]; [cbn in H |- *; congruence |].
  apply IH. exact H.
Qed.

Lemma loop_history_bound (py : interpreter) (elapsed : Z -> float)
    (p : nat) : forall locals self r self',
  find_pi_loop py elapsed p locals self = Ok (r, self') ->
  (history_length self <= 101)%nat ->
  (history_length self' <= 101)%nat.
Proof.
  induction p as [|p IH]; intros locals self r self'.
  - cbn; unfold ret; intros H; inversion H; subst; auto.
  - rewrite find_pi_loop_S. unfold find_pi_body.
    destruct (next_fraction (fst locals) (snd locals))
      as [[i op] [[nom den]|]].
    + unfold bind at 1.
      destruct (accumulate py elapsed nom den self) as [[m s]|e] eqn:A;
        [| discriminate].
      unfold ret.
      destruct (find_pi_loop py elapsed p (i, op) s)
        as [[[l ms] s'']|e] eqn:L; [| discriminate].
      intros H Hb; inversion H; subst; clear H.
      apply (IH _ _ _ _ L).
      apply accumulate_effect in A; destruct A as (_ & _ & Hh).
      unfold history_length in *; rewrite Hh.
      pose proof (appended_length (_history self) (nom, den)) as Hl.
      cbv zeta in Hl; rewrite Hl.
      destruct (Z.gtb_spec
                  (Z.of_nat match _history self with
                            | Some l => List.length l
                            | None => O
                            end) 100); lia.
    + unfold ret.
      destruct (find_pi_loop py elapsed p (i, op) self)
        as [[[l ms] s'']|e] eqn:L; [| discriminate].
      intros H Hb; inversion H; subst; clear H.
      apply (IH _ _ _ _ L Hb).
Qed.

(** ** Claims about the term generator and the main loop *)

(** C6.  The [k]-th term the loop generates, counting from one, is produced
    in pass [2k - 1]; its denominator is [2k - 1], positive and odd, its sign
    is [+1] for odd [k] and [-1] for even [k], starting at [+1], and the
    term after it has the denominator two higher.  The accumulator has then
    counted [k] terms and remembers this one as its last fraction. *)
Theorem term_alternation (k passes : nat)
    (Hk : (1 <= k)%nat) (Hpasses : (2 * k - 1 <= passes)%nat) :
  nth_error (fractions passes) (k - 1)
    = Some (series_sign k, 2 * Z.of_nat k - 1)
  /\ List.length (fractions (2 * k - 1)) = k
  /\ nth_error (fractions (passes + 2)) k
     = Some (series_sign (S k), (2 * Z.of_nat k - 1) + 2)
  /\ 0 < 2 * Z.of_nat k - 1
  /\ is_odd (2 * Z.of_nat k - 1) = true
  /\ series_sign 1 = 1
  /\ forall py started elapsed self,
       run py started elapsed (2 * k - 1) = Some self ->
       iterations self = Z.of_nat k
       /\ last_fraction self = Some (series_sign k, 2 * Z.of_nat k - 1).
Proof.
  destruct k as [|k]; [lia |].
  replace (S k - 1)%nat with k by lia.
  replace (2 * S k - 1)%nat with (2 * k + 1)%nat in * by lia.
  assert (Hnth : forall p, (2 * k + 1 <= p)%nat ->
            nth_error (fractions p) k
            = Some (series_sign (S k), 2 * Z.of_nat (S k) - 1)).
  { intros p Hp. unfold fractions.
    destruct (fractions_from_nth k p 0 eq_refl Hp) as [-> _].
    do 2 f_equal; lia. }
  assert (Hlen : List.length (fractions (2 * k + 1)) = S k).
  { unfold fractions. now destruct (fractions_from_length k 0 "add" eq_refl). }
  split; [apply Hnth; assumption |].
  split; [exact Hlen |].
  split.
  { unfold fractions.
    destruct (fractions_from_nth (S k) (passes + 2) 0 eq_refl ltac:(lia))
      as [-> _].
    do 2 f_equal; lia. }
  split; [lia |].
  split.
  { rewrite is_odd_odd.
    replace (2 * Z.of_nat (S k) - 1) with (Z.succ (2 * Z.of_nat k)) by lia.
    rewrite Z.odd_succ, Z.even_mul; reflexivity. }
  split; [reflexivity |].
  intros py started elapsed self Hrun.
  rewrite run_eq in Hrun.
  destruct (find_pi_loop py elapsed (2 * k + 1) (0, "add"%string)
              (set_start_time started new_PiSearch))
    as [[r s]|e] eqn:L; [| discriminate].
  inversion Hrun; subst s; clear Hrun.
  apply loop_tracks_fractions in L; destruct L as [Hit Hlf].
  fold (fractions (2 * k + 1)) in Hit, Hlf.
  rewrite Hlen in Hit. split; [cbn in Hit |- *; lia |].
  rewrite Hlf. apply last_of_nth_error.
  rewrite Hlen; cbn [Nat.pred]. apply Hnth; lia.
Qed.

Lemma term_alternation_witness :
  nth_error (fractions 5) 2 = Some (1, 5)
  /\ run Python3 0 (fun _ => fzero) 5 <> None.
Proof.
  split.
  - exact (proj1 (term_alternation 3 5 ltac:(lia) ltac:(lia))).
  - vm_compute; discriminate.
Defined.

(** C8.  The three assertions of [next_term] hold for every term the loop
    head generates, and [find_pi] never ends in an [AssertionError],
    whatever the instance it starts from and however long it runs.  While
    the counter is within what a float can hold, every pass returns. *)
Theorem next_term_assertions_hold (py : interpreter) (started : Z)
    (elapsed : Z -> float) (passes : nat) (self : PiSearch) :
  Forall (fun f => next_term_asserts (fst f) (snd f) = true)
         (fractions passes)
  /\ find_pi py started elapsed passes self <> Raise AssertionError
  /\ (Z.of_nat passes < float_max_int ->
      exists r self', find_pi py started elapsed passes self = Ok (r, self')).
Proof.
  split; [apply fractions_from_asserts; lia |].
  split.
  - unfold find_pi, bind, modify.
    apply loop_no_assertion_error; cbn; lia.
  - intros Hp. unfold find_pi, bind, modify.
    apply loop_returns; cbn [fst]; lia.
Qed.

Lemma next_term_assertions_hold_witness :
  Z.of_nat 7 < float_max_int
  /\ exists r self',
       find_pi Python3 0 (fun _ => fzero) 7 new_PiSearch = Ok (r, self').
Proof.
  assert (H : Z.of_nat 7 < float_max_int) by (vm_compute; reflexivity).
  split; [exact H |].
  exact (proj2 (proj2 (next_term_assertions_hold Python3 0 (fun _ => fzero)
                         7 new_PiSearch)) H).
Defined.

(** C5.  Along a run [num_digits_found] never goes down: the value after
    [p] passes is at most the value after any later pass [q].  From one
    pass to the next it is either unchanged or raised to a strictly greater
    count that the matcher reported as a match. *)
Theorem num_digits_found_monotone (py : interpreter) (started : Z)
    (elapsed : Z -> float) (p q : nat) (s_q : PiSearch)
    (Hpq : (p <= q)%nat) (Hq : run py started elapsed q = Some s_q) :
  exists s_p,
    run py started elapsed p = Some s_p
    /\ num_digits_found s_p <= num_digits_found s_q
    /\ (q = S p ->
        num_digits_found s_q = num_digits_found s_p
        \/ updated_by_match py s_p s_q).
Proof.
  rewrite run_eq in Hq. rewrite run_eq.
  replace q with (p + (q - p))%nat in Hq by lia.
  destruct (find_pi_loop py elapsed (p + (q - p)) (0, "add"%string)
              (set_start_time started new_PiSearch))
    as [[r s]|e] eqn:L; [| discriminate].
  inversion Hq; subst s; clear Hq.
  destruct (find_pi_loop_add _ _ _ _ _ _ _ _ L)
    as (l1 & ms1 & s1 & ms2 & Hp & Hd).
  rewrite Hp. exists s1. split; [reflexivity |].
  split; [eapply loop_num_digits_found; eassumption |].
  intros Hq. replace (q - p)%nat with 1%nat in Hd by lia.
  rewrite find_pi_loop_S in Hd.
  destruct (find_pi_body py elapsed l1 s1) as [[[[i op] m] s]|e] eqn:B;
    [| discriminate].
  cbn [find_pi_loop] in Hd; unfold ret in Hd.
  inversion Hd; subst; clear Hd.
  eapply body_num_digits_found; eassumption.
Qed.

Lemma num_digits_found_monotone_witness :
  exists s_p s_q,
    run Python3 0 (fun _ => fzero) 37 = Some s_q
    /\ run Python3 0 (fun _ => fzero) 36 = Some s_p
    /\ num_digits_found s_p <= num_digits_found s_q
    /\ updated_by_match Python3 s_p s_q.
Proof.
  destruct (run Python3 0 (fun _ => fzero) 37) as [s_q|] eqn:Hq;
    [| vm_compute in Hq; discriminate].
  destruct (num_digits_found_monotone Python3 0 (fun _ => fzero) 36 37 s_q
              ltac:(lia) Hq) as (s_p & Hp & Hle & Hstep).
  exists s_p, s_q. repeat split; try assumption; try reflexivity.
  - destruct (Hstep eq_refl) as [Heq|[Hlt _]]; [| exact Hlt].
    exfalso. revert Heq.
    vm_compute in Hq; inversion Hq; subst s_q.
    vm_compute in Hp; inversion Hp; subst s_p.
    vm_compute; discriminate.
  - destruct (Hstep eq_refl) as [Heq|[_ Hm]]; [| exact Hm].
    exfalso. revert Heq.
    vm_compute in Hq; inversion Hq; subst s_q.
    vm_compute in Hp; inversion Hp; subst s_p.
    vm_compute; discriminate.
Defined.

(** C3.  The history buffer does not stay within 100 entries: after the
    101st recorded fraction it holds 101 of them, since the oldest entry is
    dropped only once the length already exceeds 100.  What does hold is a
    bound of 101. *)
Theorem history_exceeds_cap (py : interpreter) (started : Z)
    (elapsed : Z -> float) :
  (exists self,
      run py started elapsed 201 = Some self
      /\ iterations self = 101
      /\ history_length self = 101%nat)
  /\ forall passes self,
      run py started elapsed passes = Some self ->
      (history_length self <= 101)%nat.
Proof.
  split.
  - destruct py; eexists; (split; [vm_compute; reflexivity |]);
      split; vm_compute; reflexivity.
  - intros passes self Hrun. rewrite run_eq in Hrun.
    destruct (find_pi_loop py elapsed passes (0, "add"%string)
                (set_start_time started new_PiSearch))
      as [[r s]|e] eqn:L; [| discriminate].
    inversion Hrun; subst s; clear Hrun.
    apply (loop_history_bound _ _ _ _ _ _ _ L). cbn; lia.
Qed.

(** C4.  [recent_history(num=5)] renders the first five entries of the
    buffer, the oldest ones, not the five most recent: with six fractions
    recorded it shows [1/1] to [1/9] and leaves out the latest, [-1/11]. *)
Theorem recent_history_shows_oldest (py : interpreter) (started : Z)
    (elapsed : Z -> float) :
  exists self,
    run py started elapsed 11 = Some self
    /\ _history self = Some six_terms
    /\ last_fraction self = Some (-1, 11)
    /\ recent_history 5 self
       = Ok ("... + 1/1 - 1/3 + 1/5 - 1/7 + 1/9"%string, self).
Proof.
  destruct py; eexists; (split; [vm_compute; reflexivity |]);
    repeat apply conj; vm_compute; reflexivity.
Qed.

(** C9, as the spec words it, fails: after exactly 20 terms (passes 39 and
    40 of the loop) the estimate does not begin with [3.1], and after
    exactly 120 terms (passes 239 and 240) it does not begin with [3.14]. *)
Lemma twenty_terms_fall_short :
  estimate_begins Python3 0 (fun _ => fzero) 39 "3.1" = Some (20, false)
  /\ estimate_begins Python3 0 (fun _ => fzero) 40 "3.1" = Some (20, false)
  /\ estimate_begins Python3 0 (fun _ => fzero) 239 "3.14"
     = Some (120, false)
  /\ estimate_begins Python3 0 (fun _ => fzero) 240 "3.14"
     = Some (120, false).
Proof.
  repeat apply conj; vm_compute; reflexivity.
Qed.

(** C9, amended.  Under double-precision arithmetic the estimate begins
    with [3.1] after exactly 19 terms and with [3.14] after exactly 119
    terms; after exactly 20 terms it reads [3.09...] and after exactly 120
    terms [3.13...]. *)
Theorem leibniz_prefix_milestones (py : interpreter) (started : Z)
    (elapsed : Z -> float) :
  estimate_begins py started elapsed 37 "3.1" = Some (19, true)
  /\ estimate_begins py started elapsed 39 "3.1" = Some (20, false)
  /\ estimate_begins py started elapsed 39 "3.09" = Some (20, true)
  /\ estimate_begins py started elapsed 237 "3.14" = Some (119, true)
  /\ estimate_begins py started elapsed 239 "3.14" = Some (120, false)
  /\ estimate_begins py started elapsed 239 "3.13" = Some (120, true).
Proof.
  destruct py; repeat apply conj; vm_compute; reflexivity.
Qed.

(** ** Further properties of the helpers and of [next_term] *)

(** The bitwise and the modulo parity tests of the script agree on every
    int, negative ones included: a number is odd exactly when it is not
    even. *)
Theorem is_odd_complements_is_even (x : Z) :
  is_odd x = negb (is_even x).
Proof.
  rewrite is_odd_odd. unfold is_even. rewrite Zmod_odd.
  now destruct (Z.odd x).
Qed.

Lemma next_term_asserts_pre (nominator denominator : Z) :
  next_term_asserts nominator denominator = true
  <-> next_term_pre nominator denominator.
Proof.
  unfold next_term_asserts, next_term_pre. rewrite is_odd_odd.
  rewrite !andb_true_iff, orb_true_iff, !Z.eqb_eq, Z.gtb_lt.
  tauto.
Qed.

Lemma next_term_value (nominator denominator : Z) (self self' : PiSearch)
    (n : float) :
  next_term nominator denominator self = Ok (n, self') ->
  n = term_value (nominator, denominator).
Proof.
  rewrite next_term_eq.
  destruct (next_term_asserts nominator denominator); [| discriminate].
  unfold float_of_int, truediv_int, float_of_int, term_value.
  destruct (float_max_int <=? Z.abs nominator); [discriminate |].
  destruct (float_max_int <=? Z.abs denominator); [discriminate |].
  destruct (denominator =? 0); [discriminate |].
  cbn [fst snd]; congruence.
Qed.

(** [next_term] raises [AssertionError] exactly when the nominator is not
    1 or -1 or the denominator is not a positive odd int.  It never raises
    [ZeroDivisionError]: a zero denominator is stopped by the assertions.
    When it returns, the instance is untouched and the value is the rounded
    quotient; it returns whenever its assertions hold and the denominator
    is within what a float can hold. *)
Theorem next_term_behaviour (nominator denominator : Z) (self : PiSearch) :
  (next_term nominator denominator self = Raise AssertionError
   <-> ~ next_term_pre nominator denominator)
  /\ next_term nominator denominator self <> Raise ZeroDivisionError
  /\ (forall n self',
        next_term nominator denominator self = Ok (n, self') ->
        self' = self /\ n = term_value (nominator, denominator))
  /\ (next_term_pre nominator denominator ->
      denominator < float_max_int ->
      next_term nominator denominator self
      = Ok (term_value (nominator, denominator), self)).
Proof.
  split; [| split; [| split]].
  - rewrite <- next_term_asserts_pre.
    destruct (next_term_asserts nominator denominator) eqn:Ha.
    + split; [| congruence].
      intros H; exfalso.
      exact (next_term_no_assertion_error _ _ self Ha H).
    + rewrite next_term_eq, Ha. split; [congruence | reflexivity].
  - rewrite next_term_eq.
    destruct (next_term_asserts nominator denominator) eqn:Ha;
      [| discriminate].
    apply next_term_asserts_pre in Ha; destruct Ha as (_ & Hpos & _).
    unfold float_of_int, truediv_int, float_of_int.
    destruct (float_max_int <=? Z.abs nominator); [discriminate |].
    destruct (float_max_int <=? Z.abs denominator); [discriminate |].
    destruct (Z.eqb_spec denominator 0); [lia | discriminate].
  - intros n self' H. split.
    + eapply next_term_frame; eassumption.
    + eapply next_term_value; eassumption.
  - intros Hpre Hd. apply next_term_asserts_pre in Hpre.
    destruct (next_term_returns _ _ self Hpre Hd) as [n Hn].
    rewrite Hn. now rewrite (next_term_value _ _ _ _ _ Hn).
Qed.

Lemma next_term_behaviour_witness :
  next_term_pre (-1) 7
  /\ 7 < float_max_int
  /\ next_term (-1) 7 new_PiSearch
     = Ok (term_value (-1, 7), new_PiSearch).
Proof.
  assert (Hp : next_term_pre (-1) 7).
  { unfold next_term_pre; repeat apply conj; [now right | lia | reflexivity]. }
  assert (Hd : 7 < float_max_int) by (vm_compute; reflexivity).
  split; [exact Hp |]. split; [exact Hd |].
  exact (proj2 (proj2 (proj2 (next_term_behaviour (-1) 7 new_PiSearch)))
           Hp Hd).
Defined.

(** ** Further properties of the digit matcher *)

(** For a finite estimate the formatted fractional digits are exactly as
    many as the reference digits: trailing zeros are kept. *)
Theorem remainder_keeps_precision (py : interpreter) (n : float)
    (Hfin : is_finite n = true) :
  len (remainder_str py n) = len (pi_str py).
Proof.
  unfold len, remainder_str; f_equal.
  destruct n as [s|s| |s m e]; try discriminate;
    cbv beta iota delta [format_f]; apply remainder_str_fixed.
Qed.

Lemma remainder_keeps_precision_witness :
  is_finite (float_of_decimal 3140000 6) = true
  /\ len (remainder_str Python3 (float_of_decimal 3140000 6)) = 15.
Proof.
  assert (H : is_finite (float_of_decimal 3140000 6) = true)
    by (vm_compute; reflexivity).
  split; [exact H |].
  exact (remainder_keeps_precision Python3 (float_of_decimal 3140000 6) H).
Defined.

(** Where the scan stops: at nothing, or at an index it was given whose
    prefix matches. *)
Lemma scan_in (pi_s rem : string) (mp : Z) (indices : list Z) :
  let r := scan pi_s rem mp indices in
  r = (false, 0)
  \/ exists i, In i indices
       /\ snd r = len rem - i
       /\ startswith pi_s (str_upto rem (snd r)) = true
       /\ fst r = (mp <=? snd r).
Proof.
  induction indices as [|i rest IH]; cbn [scan]; [now left |].
  destruct (startswith pi_s (str_upto rem (len rem - i))) eqn:Hhit.
  - right; exists i. rewrite Z.geb_leb.
    destruct (mp <=? len rem - i) eqn:Hge; cbn [fst snd];
      rewrite ?Hge; repeat apply conj; auto using in_eq.
  - cbv zeta in IH. destruct IH as [IH|(j & Hj & IH)]; [now left |].
    right; exists j; split; [now apply in_cons | exact IH].
Qed.

Lemma in_skipn {A : Type} (k : nat) (l : list A) (x : A) :
  In x (skipn k l) -> In x l.
Proof.
  intros H. rewrite <- (firstn_skipn k l). apply in_or_app; now right.
Qed.

(** Every index the loop of [test_against_pi] visits is an index of
    [remainder_str], whatever [min_places] is. *)
Lemma scan_indices_in_range (py : interpreter) (n : float) (mp i : Z) :
  In i (scan_indices py n mp) -> 0 <= i < len (remainder_str py n).
Proof.
  unfold scan_indices, list_from; intros H. apply in_skipn in H.
  unfold range in H. apply in_map_iff in H; destruct H as (j & <- & Hj).
  apply in_seq in Hj. unfold len in *. lia.
Qed.

(** What [test_against_pi] can return: [(False, 0)], or a length between
    1 and the number of formatted digits at which the prefix test holds. *)
Lemma matcher_result (py : interpreter) (n : float) (mp : Z) :
  let r := scan (pi_str py) (remainder_str py n) mp (scan_indices py n mp) in
  r = (false, 0)
  \/ (1 <= snd r <= len (remainder_str py n)
      /\ hit py n (snd r) = true
      /\ fst r = (mp <=? snd r)).
Proof.
  cbv zeta.
  destruct (scan_in (pi_str py) (remainder_str py n) mp
              (scan_indices py n mp)) as [H|(i & Hi & Hk & Hhit & Hb)];
    [now left | right].
  apply scan_indices_in_range in Hi.
  unfold hit. repeat apply conj; try assumption; lia.
Qed.

Lemma length_substring_0 (s : string) : forall k,
  (k <= String.length s)%nat -> String.length (substring 0 k s) = k.
Proof.
  induction s as [|c s IH]; intros [|k] Hk; cbn in *; try reflexivity;
    try lia.
  now rewrite IH by lia.
Qed.

(** A positive count returned by the matcher is sound: that many leading
    fractional digits of the formatted estimate are the leading digits of
    the reference, and the flag tells whether the count reaches
    [min_places]. *)
Theorem matched_digits_agree (py : interpreter) (n : float)
    (min_places : Z) (self self' : PiSearch) (b : bool) (k : Z)
    (Hcall : test_against_pi py n min_places self = Ok ((b, k), self'))
    (Hk : 0 < k) :
  k <= len (remainder_str py n)
  /\ substring 0 (Z.to_nat k) (remainder_str py n)
     = substring 0 (Z.to_nat k) (pi_str py)
  /\ b = (min_places <=? k).
Proof.
  unfold test_against_pi, ret in Hcall.
  destruct (matcher_result py n min_places) as [H|(Hr & Hhit & Hb)];
    cbv zeta in *.
  - rewrite H in Hcall; inversion Hcall; lia.
  - inversion Hcall as [[Hres Hself]]. rewrite Hres in *.
    cbn [fst snd] in *.
    repeat apply conj; [lia | | assumption].
    unfold hit, startswith, str_upto, clamp in Hhit.
    destruct (Z.ltb_spec k 0) as [|_]; [lia |].
    rewrite Z.min_l in Hhit by lia.
    apply prefix_correct in Hhit.
    rewrite length_substring_0 in Hhit by (unfold len in Hr; lia).
    now symmetry.
Qed.

Lemma matched_digits_agree_witness :
  substring 0 5 (remainder_str Python3 (float_of_decimal 3141599 6))
  = substring 0 5 (pi_str Python3).
Proof.
  assert (Hcall : test_against_pi Python3 (float_of_decimal 3141599 6) 1
                    new_PiSearch = Ok ((true, 5), new_PiSearch))
    by (vm_compute; reflexivity).
  exact (proj1 (proj2 (matched_digits_agree Python3
                         (float_of_decimal 3141599 6) 1 new_PiSearch
                         new_PiSearch true 5 Hcall ltac:(lia)))).
Defined.

(** An estimate that is an infinity or nan formats to text without digits
    and never matches: the result is [(False, 0)] for every
    [min_places]. *)
Theorem non_finite_estimate_never_matches (py : interpreter) (n : float)
    (min_places : Z) (self : PiSearch) (Hn : is_finite n = false) :
  test_against_pi py n min_places self = Ok ((false, 0), self).
Proof.
  unfold test_against_pi, ret.
  destruct (matcher_result py n min_places) as [H|(Hr & Hhit & _)];
    cbv zeta in *; [now rewrite H |].
  exfalso.
  set (k := snd (scan (pi_str py) (remainder_str py n) min_places
                   (scan_indices py n min_places))) in *.
  clearbody k.
  destruct n as [s|s| |s m e]; try discriminate.
  - assert (Hl : len (remainder_str py (S754_infinity s)) <= 4)
      by (destruct py, s; vm_compute; discriminate).
    assert (Hcases : k = 1 \/ k = 2 \/ k = 3 \/ k = 4) by lia.
    destruct Hcases as [->|[->|[->| ->]]]; destruct py, s;
      vm_compute in Hhit; discriminate.
  - assert (Hl : len (remainder_str py S754_nan) <= 3)
      by (destruct py; vm_compute; discriminate).
    assert (Hcases : k = 1 \/ k = 2 \/ k = 3) by lia.
    destruct Hcases as [->|[->| ->]]; destruct py;
      vm_compute in Hhit; discriminate.
Qed.

Lemma non_finite_estimate_never_matches_witness :
  is_finite S754_nan = false
  /\ test_against_pi Python3 S754_nan 0 new_PiSearch
     = Ok ((false, 0), new_PiSearch).
Proof.
  split; [reflexivity |].
  exact (non_finite_estimate_never_matches Python3 S754_nan 0 new_PiSearch
           eq_refl).
Defined.

(** ** Further properties of the accumulator and the main loop *)

(** Induction on the passes of the loop: a relation between the state a run
    starts from and the state and milestones it ends with holds for every
    run that returns once it holds for no pass, is kept by a skipped pass,
    and is kept by a pass that accumulates a term. *)
Lemma find_pi_loop_ind (py : interpreter) (elapsed : Z -> float)
    (R : nat -> Z -> string -> PiSearch -> list milestone -> PiSearch
         -> Prop) :
  (forall i op self, R O i op self [] self) ->
  (forall p i op i' op' self ms self',
      next_fraction i op = (i', op', None) ->
      R p i' op' self ms self' ->
      R (S p) i op self ms self') ->
  (forall p i op i' op' nom den self m s ms self',
      next_fraction i op = (i', op', Some (nom, den)) ->
      accumulate py elapsed nom den self = Ok (m, s) ->
      R p i' op' s ms self' ->
      R (S p) i op self (emitted m ++ ms) self') ->
  forall p i op self locals' ms self',
    find_pi_loop py elapsed p (i, op) self = Ok ((locals', ms), self') ->
    R p i op self ms self'.
Proof.
  intros Hzero Hskip Hacc; induction p as [|p IH];
    intros i op self locals' ms self'.
  - cbn; unfold ret; intros H; inversion H; subst; apply Hzero.
  - rewrite find_pi_loop_S. unfold find_pi_body; cbn [fst snd].
    destruct (next_fraction i op) as [[i' op'] [[nom den]|]] eqn:E.
    + unfold bind at 1.
      destruct (accumulate py elapsed nom den self) as [[m s]|e] eqn:A;
        [| discriminate].
      unfold ret.
      destruct (find_pi_loop py elapsed p (i', op') s)
        as [[[l ms'] s'']|e] eqn:L; [| discriminate].
      intros H; inversion H; subst; clear H.
      eapply Hacc; eauto.
    + unfold ret.
      destruct (find_pi_loop py elapsed p (i', op') self)
        as [[[l ms'] s'']|e] eqn:L; [| discriminate].
      intros H; inversion H; subst; clear H.
      eapply Hskip; eauto.
Qed.

Lemma fractions_from_skip (p : nat) (i : Z) (op : string) (i' : Z)
    (op' : string) :
  next_fraction i op = (i', op', None) ->
  fractions_from (S p) i op = fractions_from p i' op'.
Proof. intros E; cbn [fractions_from]; now rewrite E. Qed.

Lemma fractions_from_term (p : nat) (i : Z) (op : string) (i' : Z)
    (op' : string) (f : fraction) :
  next_fraction i op = (i', op', Some f) ->
  fractions_from (S p) i op = f :: fractions_from p i' op'.
Proof. intros E; cbn [fractions_from]; now rewrite E. Qed.

(** What one accumulated term does to the sum. *)
Lemma accumulate_total (py : interpreter) (elapsed : Z -> float)
    (nominator denominator : Z) (self self' : PiSearch)
    (m : option milestone) :
  accumulate py elapsed nominator denominator self = Ok (m, self') ->
  total self' = fadd (total self) (term_value (nominator, denominator)).
Proof.
  rewrite accumulate_eq.
  destruct (next_term nominator denominator self) as [[n s0]|e] eqn:E;
    [| discriminate].
  apply next_term_value in E; subst n.
  cbv zeta.
  match goal with
  | |- context [if ?c then _ else _] => destruct c
  end; intros H; inversion H; subst; reflexivity.
Qed.

(** Without a new best, nothing is logged; with one, the milestone carries
    the new count and the state it was found in. *)
Lemma accumulate_milestone (py : interpreter) (elapsed : Z -> float)
    (nominator denominator : Z) (self self' : PiSearch)
    (m : option milestone) :
  accumulate py elapsed nominator denominator self = Ok (m, self') ->
  (m = None /\ num_digits_found self' = num_digits_found self)
  \/ (exists x, m = Some x
        /\ m_places x = num_digits_found self'
        /\ m_iterations x = iterations self'
        /\ m_estimate x = estimate self'
        /\ num_digits_found self < num_digits_found self').
Proof.
  rewrite accumulate_eq.
  destruct (next_term nominator denominator self) as [[n s0]|e];
    [| discriminate].
  cbv zeta.
  match goal with
  | |- context [if ?c then _ else _] => destruct c eqn:Hup
  end; intros H; inversion H; subst; clear H.
  - right. apply andb_prop in Hup; destruct Hup as [_ Hgt].
    apply Z.gtb_lt in Hgt.
    eexists; repeat apply conj; try reflexivity. exact Hgt.
  - left; split; reflexivity.
Qed.

(** For [min_places >= 0] the count returned is at most
    [len(remainder_str) - min_places]. *)
Lemma matcher_count_bound (py : interpreter) (n : float) (mp : Z) :
  0 <= mp ->
  snd (scan (pi_str py) (remainder_str py n) mp (scan_indices py n mp))
  <= Z.max 0 (len (remainder_str py n) - mp).
Proof.
  intros Hmp. rewrite scan_indices_eq by assumption.
  assert (HL : 0 <= len (remainder_str py n)) by apply Nat2Z.is_nonneg.
  set (a := Z.to_nat (Z.min mp (len (remainder_str py n)))).
  set (c := Z.to_nat (len (remainder_str py n) - mp)).
  pose proof (scan_seq (pi_str py) (remainder_str py n) mp c a
                ltac:(subst a c; lia)) as H; cbv zeta in H.
  destruct H as [(Hk & _) | (Hk & _)]; subst c; lia.
Qed.

(** A new best count is within the reference digits, and together with the
    count it replaces it does not exceed their number. *)
Lemma accumulate_record (py : interpreter) (elapsed : Z -> float)
    (nominator denominator : Z) (self self' : PiSearch)
    (m : option milestone) :
  accumulate py elapsed nominator denominator self = Ok (m, self') ->
  num_digits_found self' = num_digits_found self
  \/ (num_digits_found self < num_digits_found self'
      /\ 1 <= num_digits_found self' <= len (pi_str py)
      /\ (0 <= num_digits_found self ->
          num_digits_found self + num_digits_found self'
          <= len (pi_str py))).
Proof.
  rewrite accumulate_eq.
  destruct (next_term nominator denominator self) as [[n s0]|e];
    [| discriminate].
  cbv zeta.
  set (s := set_history _ _).
  pose proof (matcher_result py (estimate s) (num_digits_found self)) as Hr.
  pose proof (matcher_count_bound py (estimate s) (num_digits_found self))
    as Hb.
  pose proof (remainder_str_length py (estimate s)) as HL.
  cbv zeta in Hr.
  set (r := scan _ _ _ _) in *.
  destruct (fst r && (snd r >? num_digits_found self)) eqn:Hup;
    intros H; inversion H; subst; clear H; [right | now left].
  apply andb_prop in Hup; destruct Hup as [Hm Hgt].
  apply Z.gtb_lt in Hgt.
  cbn [num_digits_found set_num_digits_found].
  destruct Hr as [Hr|(Hk & _)]; [rewrite Hr in Hm; discriminate |].
  repeat apply conj; lia.
Qed.

Lemma tl_skipn {A : Type} (k : nat) : forall l : list A,
  tl (skipn k l) = skipn (S k) l.
Proof.
  induction k as [|k IH]; intros [|a l]; try reflexivity.
  cbn [skipn]. rewrite IH. now destruct l.
Qed.

(** Appending to a buffer that holds the newest 101 of some entries leaves
    it holding the newest 101 of those and the new one. *)
Lemma appended_newest (h : option (list fraction)) (l : list fraction)
    (val : fraction) :
  match h with Some x => x | None => [] end = newest 101 l ->
  appended h val = newest 101 (l ++ [val]).
Proof.
  intros He. unfold appended. cbv zeta. rewrite He. unfold newest.
  rewrite length_app, length_skipn. cbn [List.length].
  destruct (Z.gtb_spec
              (Z.of_nat (List.length l - (List.length l - 101))) 100)
    as [Hgt|Hle].
  - rewrite tl_skipn, skipn_app.
    replace (List.length l + 1 - 101)%nat
      with (S (List.length l - 101)) by lia.
    replace (S (List.length l - 101) - List.length l)%nat with O by lia.
    reflexivity.
  - replace (List.length l - 101)%nat with O by lia.
    replace (List.length l + 1 - 101)%nat with O by lia.
    reflexivity.
Qed.

Lemma loop_history (py : interpreter) (elapsed : Z -> float) (p : nat)
    (i : Z) (op : string) (self : PiSearch) (locals' : Z * string)
    (ms : list milestone) (self' : PiSearch) :
  find_pi_loop py elapsed p (i, op) self = Ok ((locals', ms), self') ->
  forall l, history_entries self = newest 101 l ->
  history_entries self' = newest 101 (l ++ fractions_from p i op).
Proof.
  apply (find_pi_loop_ind py elapsed
           (fun p i op self ms self' =>
              forall l, history_entries self = newest 101 l ->
              history_entries self'
              = newest 101 (l ++ fractions_from p i op))).
  - intros i0 op0 s l Hl; cbn [fractions_from]; now rewrite app_nil_r.
  - intros p0 i0 op0 i' op' s ms0 s' E IH l Hl.
    rewrite (fractions_from_skip _ _ _ _ _ E). now apply IH.
  - intros p0 i0 op0 i' op' nom den s m s1 ms0 s' E A IH l Hl.
    rewrite (fractions_from_term _ _ _ _ _ _ E).
    specialize (IH (l ++ [(nom, den)])).
    rewrite <- app_assoc in IH; cbn [app] in IH.
    apply IH.
    apply accumulate_effect in A; destruct A as (_ & _ & Hh).
    unfold history_entries at 1; rewrite Hh.
    now apply appended_newest.
Qed.

(** The history buffer is a sliding window over the series: after any run
    of a fresh instance it holds, oldest first, the most recent 101 of the
    terms generated so far, or all of them while there are fewer. *)
Theorem history_is_newest_terms (py : interpreter) (started : Z)
    (elapsed : Z -> float) (passes : nat) (self : PiSearch)
    (Hrun : run py started elapsed passes = Some self) :
  history_entries self = newest 101 (fractions passes).
Proof.
  rewrite run_eq in Hrun.
  destruct (find_pi_loop py elapsed passes (0, "add"%string)
              (set_start_time started new_PiSearch))
    as [[[l ms] s]|e] eqn:L; [| discriminate].
  inversion Hrun; subst s; clear Hrun.
  apply (loop_history _ _ _ _ _ _ _ _ _ L []). reflexivity.
Qed.

Lemma history_is_newest_terms_witness :
  exists self,
    run Python3 0 (fun _ => fzero) 5 = Some self
    /\ history_entries self = [(1, 1); (-1, 3); (1, 5)].
Proof.
  destruct (run Python3 0 (fun _ => fzero) 5) as [s|] eqn:Hrun;
    [| vm_compute in Hrun; discriminate].
  exists s; split; [reflexivity |].
  exact (history_is_newest_terms Python3 0 (fun _ => fzero) 5 s Hrun).
Defined.

Lemma loop_total (py : interpreter) (elapsed : Z -> float) (p : nat)
    (i : Z) (op : string) (self : PiSearch) (locals' : Z * string)
    (ms : list milestone) (self' : PiSearch) :
  find_pi_loop py elapsed p (i, op) self = Ok ((locals', ms), self') ->
  total self' = add_terms (total self) (fractions_from p i op).
Proof.
  apply (find_pi_loop_ind py elapsed
           (fun p i op self ms self' =>
              total self' = add_terms (total self) (fractions_from p i op))).
  - reflexivity.
  - intros p0 i0 op0 i' op' s ms0 s' E IH.
    now rewrite (fractions_from_skip _ _ _ _ _ E).
  - intros p0 i0 op0 i' op' nom den s m s1 ms0 s' E A IH.
    rewrite (fractions_from_term _ _ _ _ _ _ E), IH.
    apply accumulate_total in A. unfold add_terms; cbn [fold_left].
    now rewrite A.
Qed.

(** The running total is the float sum of the generated terms, each the
    rounded quotient of its nominator by its denominator, added left to
    right from zero with one rounding per addition; the estimate is four
    times it. *)
Theorem total_is_series_sum (py : interpreter) (started : Z)
    (elapsed : Z -> float) (passes : nat) (self : PiSearch)
    (Hrun : run py started elapsed passes = Some self) :
  total self = add_terms fzero (fractions passes)
  /\ last_result self
     = Ok (fmul (add_terms fzero (fractions passes)) (round_int 4), self).
Proof.
  rewrite run_eq in Hrun.
  destruct (find_pi_loop py elapsed passes (0, "add"%string)
              (set_start_time started new_PiSearch))
    as [[[l ms] s]|e] eqn:L; [| discriminate].
  inversion Hrun; subst s; clear Hrun.
  apply loop_total in L. cbn [total set_start_time new_PiSearch] in L.
  split; [exact L |].
  unfold last_result, bind, get, ret. now rewrite L.
Qed.

Lemma total_is_series_sum_witness :
  exists self,
    run Python3 0 (fun _ => fzero) 3 = Some self
    /\ total self
       = fadd (fadd fzero (term_value (1, 1))) (term_value (-1, 3)).
Proof.
  destruct (run Python3 0 (fun _ => fzero) 3) as [s|] eqn:Hrun;
    [| vm_compute in Hrun; discriminate].
  exists s; split; [reflexivity |].
  exact (proj1 (total_is_series_sum Python3 0 (fun _ => fzero) 3 s Hrun)).
Defined.

Lemma find_pi_eq (py : interpreter) (started : Z) (elapsed : Z -> float)
    (passes : nat) (self : PiSearch) :
  find_pi py started elapsed passes self
  = find_pi_loop py elapsed passes (0, "add"%string)
      (set_start_time started self).
Proof. reflexivity. Qed.

Lemma loop_milestones (py : interpreter) (elapsed : Z -> float) (p : nat)
    (i : Z) (op : string) (self : PiSearch) (locals' : Z * string)
    (ms : list milestone) (self' : PiSearch) :
  find_pi_loop py elapsed p (i, op) self = Ok ((locals', ms), self') ->
  Sorted Z.lt (num_digits_found self :: map m_places ms)
  /\ num_digits_found self'
     = last (map m_places ms) (num_digits_found self).
Proof.
  apply (find_pi_loop_ind py elapsed
           (fun p i op self ms self' =>
              Sorted Z.lt (num_digits_found self :: map m_places ms)
              /\ num_digits_found self'
                 = last (map m_places ms) (num_digits_found self))).
  - intros; split; [repeat constructor | reflexivity].
  - intros; assumption.
  - intros p0 i0 op0 i' op' nom den s m s1 ms0 s' E A [IHs IHl].
    apply accumulate_milestone in A.
    destruct A as [[-> Heq]|(x & -> & Hp & _ & _ & Hlt)]; cbn [emitted app].
    + rewrite <- Heq. now split.
    + cbn [map]. rewrite Hp. split.
      * constructor; [exact IHs | constructor; exact Hlt].
      * now rewrite last_cons_default.
Qed.

(** The counts of the milestones [find_pi] logs rise strictly, starting
    above the count the instance had, and the last one logged is the count
    the instance ends with. *)
Theorem milestones_strictly_increase (py : interpreter) (started : Z)
    (elapsed : Z -> float) (passes : nat) (self self' : PiSearch)
    (locals' : Z * string) (ms : list milestone)
    (Hrun : find_pi py started elapsed passes self
            = Ok ((locals', ms), self')) :
  Sorted Z.lt (num_digits_found self :: map m_places ms)
  /\ num_digits_found self'
     = last (map m_places ms) (num_digits_found self).
Proof.
  rewrite find_pi_eq in Hrun.
  apply loop_milestones in Hrun. exact Hrun.
Qed.

Lemma milestones_strictly_increase_witness :
  exists locals' ms self',
    find_pi Python3 0 (fun _ => fzero) 237 new_PiSearch
      = Ok ((locals', ms), self')
    /\ map m_places ms = [1; 2]
    /\ Sorted Z.lt (0 :: map m_places ms).
Proof.
  destruct (find_pi Python3 0 (fun _ => fzero) 237 new_PiSearch)
    as [[[l ms] s]|e] eqn:Hrun; [| vm_compute in Hrun; discriminate].
  exists l, ms, s. split; [reflexivity |].
  split.
  - vm_compute in Hrun. inversion Hrun. reflexivity.
  - exact (proj1 (milestones_strictly_increase Python3 0 (fun _ => fzero)
                    237 new_PiSearch s l ms Hrun)).
Defined.

Lemma loop_record_bound (py : interpreter) (elapsed : Z -> float) (p : nat)
    (i : Z) (op : string) (self : PiSearch) (locals' : Z * string)
    (ms : list milestone) (self' : PiSearch) :
  find_pi_loop py elapsed p (i, op) self = Ok ((locals', ms), self') ->
  num_digits_found self <= len (pi_str py) ->
  num_digits_found self' <= len (pi_str py).
Proof.
  apply (find_pi_loop_ind py elapsed
           (fun p i op self ms self' =>
              num_digits_found self <= len (pi_str py) ->
              num_digits_found self' <= len (pi_str py))).
  - intros; assumption.
  - intros; auto.
  - intros p0 i0 op0 i' op' nom den s m s1 ms0 s' E A IH Hb.
    apply IH. apply accumulate_record in A.
    destruct A as [->|(_ & Hk & _)]; lia.
Qed.

(** The best count never leaves the reference digits: at every point of a
    run of a fresh instance it is between 0 and the number of fractional
    digits of [str(pi)], 15 under Python 3 and 11 under Python 2. *)
Theorem num_digits_found_bounded (py : interpreter) (started : Z)
    (elapsed : Z -> float) (passes : nat) (self : PiSearch)
    (Hrun : run py started elapsed passes = Some self) :
  0 <= num_digits_found self <= len (pi_str py)
  /\ len (pi_str py) = match py with Python2 => 11 | Python3 => 15 end.
Proof.
  rewrite run_eq in Hrun.
  destruct (find_pi_loop py elapsed passes (0, "add"%string)
              (set_start_time started new_PiSearch))
    as [[[l ms] s]|e] eqn:L; [| discriminate].
  inversion Hrun; subst s; clear Hrun.
  assert (Hlen : len (pi_str py)
                 = match py with Python2 => 11 | Python3 => 15 end)
    by (destruct py; vm_compute; reflexivity).
  split; [| exact Hlen]. split.
  - apply loop_num_digits_found in L. exact L.
  - apply (loop_record_bound _ _ _ _ _ _ _ _ _ L).
    cbn [num_digits_found set_start_time new_PiSearch].
    rewrite Hlen; destruct py; lia.
Qed.

Lemma num_digits_found_bounded_witness :
  exists self,
    run Python3 0 (fun _ => fzero) 37 = Some self
    /\ 0 <= num_digits_found self <= 15.
Proof.
  destruct (run Python3 0 (fun _ => fzero) 37) as [s|] eqn:Hrun;
    [| vm_compute in Hrun; discriminate].
  exists s; split; [reflexivity |].
  pose proof (num_digits_found_bounded Python3 0 (fun _ => fzero) 37 s Hrun)
    as [Hb Hl].
  rewrite Hl in Hb. exact Hb.
Defined.

Lemma loop_stall (py : interpreter) (elapsed : Z -> float) (p : nat)
    (i : Z) (op : string) (self : PiSearch) (locals' : Z * string)
    (ms : list milestone) (self' : PiSearch) :
  find_pi_loop py elapsed p (i, op) self = Ok ((locals', ms), self') ->
  0 <= num_digits_found self ->
  len (pi_str py) <= 2 * num_digits_found self ->
  num_digits_found self' = num_digits_found self /\ ms = [].
Proof.
  apply (find_pi_loop_ind py elapsed
           (fun p i op self ms self' =>
              0 <= num_digits_found self ->
              len (pi_str py) <= 2 * num_digits_found self ->
              num_digits_found self' = num_digits_found self /\ ms = [])).
  - intros; split; reflexivity.
  - intros; auto.
  - intros p0 i0 op0 i' op' nom den s m s1 ms0 s' E A IH Hb Hh.
    pose proof (accumulate_record _ _ _ _ _ _ _ A) as Hrec.
    pose proof (accumulate_milestone _ _ _ _ _ _ _ A) as Hm.
    assert (Heq : num_digits_found s1 = num_digits_found s).
    { destruct Hrec as [H|(Hlt & _ & Hsum)]; [exact H |].
      specialize (Hsum Hb); lia. }
    destruct Hm as [[-> _]|(x & _ & _ & _ & _ & Hlt)]; [| lia].
    rewrite <- Heq in Hb, Hh. destruct (IH Hb Hh) as [IH1 IH2].
    split; [congruence | now rewrite IH2].
Qed.

(** The search stalls half way through the reference: the scan for a best
    of [d] digits only tries prefixes up to [len(pi_str) - d] digits long,
    so once [2 * d >= len(pi_str)] (8 digits under Python 3, 6 under
    Python 2) no later pass raises [num_digits_found] or logs a milestone,
    whatever the estimate becomes. *)
Theorem search_stalls_past_half (py : interpreter) (elapsed : Z -> float)
    (passes : nat) (i : Z) (operation : string) (self self' : PiSearch)
    (locals' : Z * string) (ms : list milestone)
    (Hbest : 0 <= num_digits_found self)
    (Hhalf : len (pi_str py) <= 2 * num_digits_found self)
    (Hrun : find_pi_loop py elapsed passes (i, operation) self
            = Ok ((locals', ms), self')) :
  num_digits_found self' = num_digits_found self /\ ms = [].
Proof.
  exact (loop_stall _ _ _ _ _ _ _ _ _ Hrun Hbest Hhalf).
Qed.

Lemma search_stalls_past_half_witness :
  exists locals' ms self',
    find_pi_loop Python3 (fun _ => fzero) 5 (0, "add"%string)
      (set_num_digits_found 8 new_PiSearch) = Ok ((locals', ms), self')
    /\ num_digits_found self' = 8 /\ ms = [].
Proof.
  destruct (find_pi_loop Python3 (fun _ => fzero) 5 (0, "add"%string)
              (set_num_digits_found 8 new_PiSearch))
    as [[[l ms] s]|e] eqn:Hrun; [| vm_compute in Hrun; discriminate].
  exists l, ms, s. split; [reflexivity |].
  assert (Hbest : 0 <= num_digits_found (set_num_digits_found 8 new_PiSearch))
    by (cbn; lia).
  assert (Hhalf : len (pi_str Python3)
                  <= 2 * num_digits_found
                           (set_num_digits_found 8 new_PiSearch))
    by (vm_compute; discriminate).
  exact (search_stalls_past_half Python3 (fun _ => fzero) 5 0 "add"
           (set_num_digits_found 8 new_PiSearch) s l ms Hbest Hhalf Hrun).
Defined.

Lemma fractions_length (passes : nat) :
  Z.of_nat (List.length (fractions passes)) = (Z.of_nat passes + 1) / 2.
Proof.
  unfold fractions.
  destruct (Nat.Even_or_Odd passes) as [[k ->]|[k ->]].
  - destruct (fractions_from_length k 0 "add" eq_refl) as [-> _].
    apply Z.div_unique with (r := 1); lia.
  - destruct (fractions_from_length k 0 "add" eq_refl) as [_ ->].
    apply Z.div_unique with (r := 0); lia.
Qed.

(** Between passes of the loop the bookkeeping agrees with the series:
    after [passes] whole passes [iterations] is the number of odd values
    the counter has taken, [(passes + 1) // 2], and the last fraction is
    the term of that index: denominator [2 * iterations - 1], sign by the
    parity of [iterations].  Before the first pass there is no last
    fraction.  Inside a pass the two attributes are assigned one after the
    other, so the agreement is one of the pass boundaries. *)
Theorem accumulator_tracks_series (py : interpreter) (started : Z)
    (elapsed : Z -> float) (passes : nat) (self : PiSearch)
    (Hrun : run py started elapsed passes = Some self) :
  iterations self = (Z.of_nat passes + 1) / 2
  /\ (passes = O -> last_fraction self = None)
  /\ ((1 <= passes)%nat ->
      last_fraction self
      = Some (series_sign (Z.to_nat (iterations self)),
              2 * iterations self - 1)).
Proof.
  rewrite run_eq in Hrun.
  destruct (find_pi_loop py elapsed passes (0, "add"%string)
              (set_start_time started new_PiSearch))
    as [[r s]|e] eqn:L; [| discriminate].
  inversion Hrun; subst s; clear Hrun.
  apply loop_tracks_fractions in L; destruct L as [Hit Hlf].
  fold (fractions passes) in Hit, Hlf.
  cbn [iterations last_fraction set_start_time new_PiSearch] in Hit, Hlf.
  rewrite fractions_length in Hit.
  split; [lia |]. split.
  - intros ->. exact Hlf.
  - intros Hp. rewrite Hlf.
    pose proof (fractions_length passes) as Hlen.
    assert (Hn : 1 <= (Z.of_nat passes + 1) / 2).
    { apply Z.div_le_lower_bound; lia. }
    set (n := List.length (fractions passes)) in *.
    assert (Hpass : (2 * (n - 1) + 1 <= passes)%nat).
    { assert (2 * ((Z.of_nat passes + 1) / 2) <= Z.of_nat passes + 1)
        by (apply Z.mul_div_le; lia).
      lia. }
    apply last_of_nth_error. fold n.
    replace (Nat.pred n) with (n - 1)%nat by lia.
    unfold fractions.
    destruct (fractions_from_nth (n - 1) passes 0 eq_refl Hpass) as [-> _].
    assert (Hits : iterations self = Z.of_nat n) by lia.
    rewrite Hits, Nat2Z.id.
    replace (S (n - 1)) with n by lia.
    replace (0 + 2 * Z.of_nat (n - 1) + 1) with (2 * Z.of_nat n - 1) by lia.
    reflexivity.
Qed.

Lemma accumulator_tracks_series_witness :
  exists self,
    run Python3 0 (fun _ => fzero) 8 = Some self
    /\ iterations self = 4
    /\ last_fraction self = Some (-1, 7).
Proof.
  destruct (run Python3 0 (fun _ => fzero) 8) as [s|] eqn:Hrun;
    [| vm_compute in Hrun; discriminate].
  exists s; split; [reflexivity |].
  destruct (accumulator_tracks_series Python3 0 (fun _ => fzero) 8 s Hrun)
    as (Hit & _ & Hlf).
  change ((Z.of_nat 8 + 1) / 2) with 4 in Hit.
  split; [exact Hit |].
  rewrite (Hlf ltac:(lia)), Hit. reflexivity.
Defined.

(** ** Further properties of the reporting methods *)

Lemma loop_has_history (py : interpreter) (elapsed : Z -> float) (p : nat)
    (i : Z) (op : string) (self : PiSearch) (locals' : Z * string)
    (ms : list milestone) (self' : PiSearch) :
  find_pi_loop py elapsed p (i, op) self = Ok ((locals', ms), self') ->
  _history self' = None ->
  _history self = None /\ fractions_from p i op = [].
Proof.
  apply (find_pi_loop_ind py elapsed
           (fun p i op self ms self' =>
              _history self' = None ->
              _history self = None /\ fractions_from p i op = [])).
  - intros; split; [assumption | reflexivity].
  - intros p0 i0 op0 i' op' s ms0 s' E IH Hn.
    rewrite (fractions_from_skip _ _ _ _ _ E). auto.
  - intros p0 i0 op0 i' op' nom den s m s1 ms0 s' E A IH Hn.
    apply accumulate_effect in A; destruct A as (_ & _ & Hh).
    destruct (IH Hn) as [Hnone _]. congruence.
Qed.

(** After at least one pass of a run the history attribute exists and
    holds the newest terms. *)
Lemma run_history (py : interpreter) (started : Z) (elapsed : Z -> float)
    (passes : nat) (self : PiSearch) :
  (1 <= passes)%nat ->
  run py started elapsed passes = Some self ->
  _history self = Some (newest 101 (fractions passes)).
Proof.
  intros Hp Hrun. rewrite run_eq in Hrun.
  destruct (find_pi_loop py elapsed passes (0, "add"%string)
              (set_start_time started new_PiSearch))
    as [[[l ms] s]|e] eqn:L; [| discriminate].
  inversion Hrun; subst s; clear Hrun.
  pose proof (loop_history _ _ _ _ _ _ _ _ _ L [] eq_refl) as Hh.
  cbn [app] in Hh. fold (fractions passes) in Hh.
  unfold history_entries in Hh.
  destruct (_history self) as [h|] eqn:Hs; [now rewrite Hh |].
  exfalso.
  destruct (loop_has_history _ _ _ _ _ _ _ _ _ L Hs) as [_ Hnil].
  fold (fractions passes) in Hnil.
  pose proof (fractions_length passes) as Hlen. rewrite Hnil in Hlen.
  cbn [List.length Z.of_nat] in Hlen.
  assert (1 <= (Z.of_nat passes + 1) / 2)
    by (apply Z.div_le_lower_bound; lia).
  lia.
Qed.

(** [recent_history] needs a recorded term: on a fresh instance, and on one
    whose [find_pi] was stopped before its first pass, it raises
    [AttributeError], which is what [print_summary] then ends with.  After
    any pass it returns, leaves the instance as it is, and renders the
    first [num] entries of the window of the newest 101 terms. *)
Theorem recent_history_needs_a_term (py : interpreter) (started : Z)
    (elapsed : Z -> float) (num : Z) :
  recent_history num new_PiSearch = Raise AttributeError
  /\ (forall self,
        run py started elapsed 0 = Some self ->
        recent_history num self = Raise AttributeError)
  /\ (forall passes self,
        (1 <= passes)%nat ->
        run py started elapsed passes = Some self ->
        recent_history num self
        = Ok (fold_left render_fraction
                (list_upto (newest 101 (fractions passes)) num)
                "..."%string,
              self)).
Proof.
  split; [reflexivity |]. split.
  - intros self Hrun. cbn in Hrun. inversion Hrun; subst. reflexivity.
  - intros passes self Hp Hrun.
    pose proof (run_history _ _ _ _ _ Hp Hrun) as Hh.
    unfold recent_history, attr, bind, get, ret, raise. now rewrite Hh.
Qed.

Lemma recent_history_needs_a_term_witness :
  exists self,
    (1 <= 11)%nat
    /\ run Python3 0 (fun _ => fzero) 11 = Some self
    /\ recent_history 2 self = Ok ("... + 1/1 - 1/3"%string, self).
Proof.
  destruct (run Python3 0 (fun _ => fzero) 11) as [s|] eqn:Hrun;
    [| vm_compute in Hrun; discriminate].
  exists s. split; [lia |]. split; [reflexivity |].
  exact (proj2 (proj2 (recent_history_needs_a_term Python3 0
                         (fun _ => fzero) 2))
           11%nat s ltac:(lia) Hrun).
Defined.

(** After at least one pass the last fraction is the term whose index is
    [iterations]. *)
Lemma run_last_fraction (py : interpreter) (started : Z)
    (elapsed : Z -> float) (passes : nat) (self : PiSearch) :
  (1 <= passes)%nat ->
  run py started elapsed passes = Some self ->
  last_fraction self
  = Some (series_sign (Z.to_nat (iterations self)), 2 * iterations self - 1).
Proof.
  intros Hp Hrun. rewrite run_eq in Hrun.
  destruct (find_pi_loop py elapsed passes (0, "add"%string)
              (set_start_time started new_PiSearch))
    as [[r s]|e] eqn:L; [| discriminate].
  inversion Hrun; subst s; clear Hrun.
  apply loop_tracks_fractions in L; destruct L as [Hit Hlf].
  fold (fractions passes) in Hit, Hlf.
  cbn [iterations last_fraction set_start_time new_PiSearch] in Hit, Hlf.
  rewrite Hlf.
  pose proof (fractions_length passes) as Hlen.
  assert (Hn : 1 <= (Z.of_nat passes + 1) / 2)
    by (apply Z.div_le_lower_bound; lia).
  set (n := List.length (fractions passes)) in *.
  assert (Hpass : (2 * (n - 1) + 1 <= passes)%nat).
  { assert (2 * ((Z.of_nat passes + 1) / 2) <= Z.of_nat passes + 1)
      by (apply Z.mul_div_le; lia).
    lia. }
  apply last_of_nth_error. fold n.
  replace (Nat.pred n) with (n - 1)%nat by lia.
  unfold fractions.
  destruct (fractions_from_nth (n - 1) passes 0 eq_refl Hpass) as [-> _].
  assert (Hits : iterations self = Z.of_nat n) by lia.
  rewrite Hits, Nat2Z.id.
  replace (S (n - 1)) with n by lia.
  replace (0 + 2 * Z.of_nat (n - 1) + 1) with (2 * Z.of_nat n - 1) by lia.
  reflexivity.
Qed.

(** [status] needs a recorded term too: it raises [AttributeError] on a
    fresh instance.  After any pass it returns the number of terms, the
    last term as text, the elapsed time to two decimals and the estimate,
    and leaves the instance as it is. *)
Theorem status_needs_a_term (py : interpreter) (started : Z)
    (elapsed : Z -> float) :
  status new_PiSearch = Raise AttributeError
  /\ (forall passes self,
        (1 <= passes)%nat ->
        run py started elapsed passes = Some self ->
        status self
        = Ok ((iterations self,
               fraction_str (series_sign (Z.to_nat (iterations self)),
                             2 * iterations self - 1),
               String.append (format_f (time self) 2) " seconds",
               estimate self),
              self)).
Proof.
  split; [reflexivity |].
  intros passes self Hp Hrun.
  pose proof (run_last_fraction _ _ _ _ _ Hp Hrun) as Hlf.
  unfold status, attr, last_result, bind, get, ret, raise.
  now rewrite Hlf.
Qed.

Lemma status_needs_a_term_witness :
  exists self,
    (1 <= 3)%nat
    /\ run Python3 0 (fun _ => fzero) 3 = Some self
    /\ exists t e, status self = Ok ((2, "-1/3"%string, t, e), self).
Proof.
  destruct (run Python3 0 (fun _ => fzero) 3) as [s|] eqn:Hrun;
    [| vm_compute in Hrun; discriminate].
  exists s. split; [lia |]. split; [reflexivity |].
  pose proof (proj2 (status_needs_a_term Python3 0 (fun _ => fzero))
                3%nat s ltac:(lia) Hrun) as Hs.
  rewrite Hs. vm_compute in Hrun. inversion Hrun; subst s.
  do 2 eexists. vm_compute. reflexivity.
Defined.

Lemma lstrip_minus_uint (u : Decimal.uint) (rest : string) :
  lstrip "-" (String.append (NilZero.string_of_uint u) rest)
  = String.append (NilZero.string_of_uint u) rest.
Proof. destruct u; reflexivity. Qed.

(** How a fraction is rendered: a plus sign for a positive nominator, a
    minus sign otherwise, and then the magnitude of the nominator over the
    denominator; a negative nominator never shows a second minus sign. *)
Theorem render_fraction_sign (text : string) (nominator denominator : Z) :
  render_fraction text (nominator, denominator)
  = String.append text
      (String.append (if nominator >? 0 then " + " else " - ")
         (String.append (str_int (Z.abs nominator))
            (String.append "/" (str_int denominator)))).
Proof.
  unfold render_fraction, fraction_str; cbn [fst snd].
  destruct nominator as [|p|p].
  - reflexivity.
  - reflexivity.
  - change (Z.neg p >? 0) with false. cbv iota.
    change (str_int (Z.neg p))
      with (String "-" (NilZero.string_of_uint (Pos.to_uint p))).
    change (str_int (Z.abs (Z.neg p)))
      with (NilZero.string_of_uint (Pos.to_uint p)).
    cbn [String.append lstrip].
    change (Ascii.eqb "-" "-") with true. cbv iota.
    rewrite <- (lstrip_minus_uint (Pos.to_uint p)
                  (String.append "/" (str_int denominator))) at 2.
    reflexivity.
Qed.
